(** * agentGo: pointer recorder and timed player

    A shallow embedding of the programs that share the unit-normalised
    log format:

    - the Recorder, [src/recorder/main.go], which samples the pointer once
      per ticker tick, appends [timestamp, norm_x, norm_y] rows to
      [mouse_movements.csv] and hands a screenshot to the estimator in a
      goroutine;
    - the recorder that writes the same rows and cross-checks each of
      them against the estimator's answer, calling it in the handler;
    - the Player (the [main] that de-normalises with
      [robotgo.GetScreenSize]), which reads the file back and drives the
      pointer.

    Go's [int] and [int64] are modelled by [Z] with the 64-bit wrap-around
    written out, [float64] by the rational it denotes together with
    round-to-nearest-even on a 53-bit significand, strings by [string],
    a CSV record by [list string].  Calls with an effect on the outside
    world ([log.Printf], [time.Sleep], [robotgo.Move], [writer.Write], ...)
    become events of a trace, in program order. *)

From Stdlib Require Import ZArith QArith Qround Qabs Qpower.
From Stdlib Require Import List String Ascii Bool Lia Lqa.
From Stdlib Require Qcanon.
From Stdlib Require Import Floats Uint63.
Import ListNotations.

Local Open Scope Z_scope.

(** ** Machine integers *)

Module Int64.

Definition modulus : Z := 2 ^ 64.
Definition min_int : Z := - 2 ^ 63.
Definition max_int : Z := 2 ^ 63 - 1.

(** Two's complement wrap-around of a mathematical integer to [int64]. *)
Definition wrap (z : Z) : Z := (z + 2 ^ 63) mod modulus - 2 ^ 63.

Definition in_range (z : Z) : bool := (min_int <=? z) && (z <=? max_int).

Definition sub (a b : Z) : Z := wrap (a - b).
Definition mul (a b : Z) : Z := wrap (a * b).

End Int64.

(** ** Decimal digits *)

Module Digits.

Definition digit_of_ascii (c : ascii) : option Z :=
  let n := Z.of_N (N_of_ascii c) in
  if (48 <=? n) && (n <=? 57) then Some (n - 48) else None.

Definition ascii_of_digit (d : Z) : ascii := ascii_of_N (Z.to_N (48 + d)).

(** Value of a string of decimal digits read after the accumulator [acc];
    [None] on the first character that is not a digit. *)
Fixpoint parse_acc (s : string) (acc : Z) : option Z :=
  match s with
  | EmptyString => Some acc
  | String c r =>
      match digit_of_ascii c with
      | Some d => parse_acc r (10 * acc + d)
      | None => None
      end
  end.

(** A non-empty string of decimal digits. *)
Definition parse (s : string) : option Z :=
  match s with
  | EmptyString => None
  | _ => parse_acc s 0
  end.

(** The decimal digits of [n >= 0], most significant first. *)
Fixpoint to_digits (fuel : nat) (n : Z) : list Z :=
  match fuel with
  | O => [n mod 10]
  | S f => if n <? 10 then [n] else to_digits f (n / 10) ++ [n mod 10]
  end.

(** Exactly [k] digits of [n], most significant first (zero padded). *)
Fixpoint fixed_digits (k : nat) (n : Z) : list Z :=
  match k with
  | O => []
  | S k' => fixed_digits k' (n / 10) ++ [n mod 10]
  end.

Definition string_of_digits (ds : list Z) : string :=
  string_of_list_ascii (map ascii_of_digit ds).

(** Reading one more digit [d] after the value [a]. *)
Definition step (a d : Z) : Z := 10 * a + d.

Definition is_digit (d : Z) : Prop := 0 <= d <= 9.

Definition print_nat (n : Z) : string :=
  string_of_digits (to_digits (Z.to_nat (Z.log2 n)) n).

End Digits.

(** ** [strconv] and [fmt] on integers *)

Module Strconv.

(** A leading [+] or [-]: whether the numeral is negated, and what
    follows the sign. *)
Definition split_sign (s : string) : bool * string :=
  match s with
  | String "+"%char r => (false, r)
  | String "-"%char r => (true, r)
  | _ => (false, s)
  end.

(** [strconv.ParseInt(s, 10, 64)]: an optional sign, then at least one
    decimal digit and nothing else; a value outside [int64] is a range
    error.  [None] stands for [err != nil]. *)
Definition ParseInt (s : string) : option Z :=
  let '(neg, body) := split_sign s in
  match Digits.parse body with
  | Some n =>
      let v := if neg then - n else n in
      if Int64.in_range v then Some v else None
  | None => None
  end.

(** [strconv.Atoi(s)]: [ParseInt(s, 10, 0)] converted to [int], which has
    64 bits. *)
Definition Atoi (s : string) : option Z := ParseInt s.

(** [fmt.Sprintf("%d", v)]. *)
Definition FormatInt (v : Z) : string :=
  if v <? 0 then String "-"%char (Digits.print_nat (- v))
  else Digits.print_nat v.

End Strconv.

(** ** The [float64] operations the two programs use

    The programs use [float64] through six operations only.  Statements
    about control flow, ordering and timing hold for any implementation
    of them, so they are made over this interface; the numeric statements
    are made on the binary64 instance [Float64.binary64] below. *)

Class FloatLib : Type := {
  float64 : Type;
  (** [float64(n)] for an [int] *)
  of_int : Z -> float64;
  fdiv : float64 -> float64 -> float64;
  fmul : float64 -> float64 -> float64;
  (** [int(f)] *)
  to_int : float64 -> Z;
  (** [fmt.Sprintf("%.8f", f)] *)
  format_f8 : float64 -> string;
  (** [strconv.ParseFloat(s, 64)], [None] for [err != nil] *)
  ParseFloat : string -> option float64
}.

(** ** [encoding/csv] *)

Module Csv.

Definition record : Type := list string.

(** [csv.NewReader(file).ReadAll()] on the sequence of records the lexer
    finds in the file.  [NewReader] leaves [FieldsPerRecord] at 0: the
    first record fixes the field count, and a later record with another
    count is [ErrFieldCount], on which [ReadAll] returns the error and no
    records.  [None] stands for [err != nil]. *)
Definition ReadAll (file : list record) : option (list record) :=
  match file with
  | [] => Some []
  | first :: rest =>
      if forallb (fun r => Nat.eqb (List.length r) (List.length first)) rest
      then Some file
      else None
  end.

End Csv.

(** ** The Player

    [main] of the playback program.  What it reads from the outside is its
    argument list: the records in [mouse_movements.csv] and the logical
    screen size that [robotgo.GetScreenSize] reports.  What it does to the
    outside is the trace it returns: per-row diagnostics ([log.Printf]),
    [time.Sleep] and [robotgo.Move], in program order.  The informational
    lines (screen size, start, finish, the [fmt.Printf] before each move)
    are left out of the trace. *)

Module Player.

Inductive diagnostic : Type :=
| SkippingMalformed (r : Csv.record)   (* "skipping malformed record" *)
| FailedTimestamp                      (* "failed to parse timestamp" *)
| FailedX                              (* "failed to parse normalized x coordinate" *)
| FailedY.                             (* "failed to parse normalized y coordinate" *)

Inductive event : Type :=
| LogPrintf (d : diagnostic)
| Sleep (ns : Z)          (* [time.Sleep(d)], [d] in nanoseconds *)
| Move (x y : Z).         (* [robotgo.Move(x, y)] *)

Inductive outcome : Type :=
| Fatal                          (* [log.Fatalf]: the process exits *)
| Finished (tr : list event).

(** [time.Millisecond] as a [time.Duration]. *)
Definition Millisecond : Z := 1000000.

(** [time.Duration(timestamp-lastTimestamp) * time.Millisecond], both
    operations on [int64]. *)
Definition delay (timestamp lastTimestamp : Z) : Z :=
  Int64.mul (Int64.sub timestamp lastTimestamp) Millisecond.

Section WithScreen.

Context {FL : FloatLib}.
Variables logicalWidth logicalHeight : Z.

(** [int(norm * float64(logical))] *)
Definition denormalize (norm : float64) (logical : Z) : Z :=
  to_int (fmul norm (of_int logical)).

(** The body of [for i, record := range records], from index [i] on. *)
Fixpoint playback (i : nat) (lastTimestamp : Z) (records : list Csv.record)
  : list event :=
  match records with
  | [] => []
  | record :: rest =>
      if negb (Nat.eqb (List.length record) 3) then
        LogPrintf (SkippingMalformed record) :: playback (S i) lastTimestamp rest
      else
        match Strconv.ParseInt (nth 0 record EmptyString) with
        | None => LogPrintf FailedTimestamp :: playback (S i) lastTimestamp rest
        | Some timestamp =>
            match ParseFloat (nth 1 record EmptyString) with
            | None => LogPrintf FailedX :: playback (S i) lastTimestamp rest
            | Some normX =>
                match ParseFloat (nth 2 record EmptyString) with
                | None => LogPrintf FailedY :: playback (S i) lastTimestamp rest
                | Some normY =>
                    (if Nat.ltb 0 i then [Sleep (delay timestamp lastTimestamp)]
                     else [])
                    ++ Move (denormalize normX logicalWidth)
                            (denormalize normY logicalHeight)
                    :: playback (S i) timestamp rest
                end
            end
        end
  end.

Definition main (file : list Csv.record) : outcome :=
  match Csv.ReadAll file with
  | None => Fatal
  | Some records =>
      (* Remove header row *)
      let records := match records with [] => [] | _ :: body => body end in
      Finished (playback 0 0 records)
  end.

(** The fields of a record that the loop accepts: its timestamp and the
    two normalised coordinates; [None] when the loop logs a diagnostic
    and continues with the next record. *)
Definition parsed (record : Csv.record) : option (Z * float64 * float64) :=
  if negb (Nat.eqb (List.length record) 3) then None
  else
    match Strconv.ParseInt (nth 0 record EmptyString),
          ParseFloat (nth 1 record EmptyString),
          ParseFloat (nth 2 record EmptyString) with
    | Some timestamp, Some normX, Some normY => Some (timestamp, normX, normY)
    | _, _, _ => None
    end.

Definition offset (p : Z * float64 * float64) : Z := fst (fst p).

Definition position (p : Z * float64 * float64) : Z * Z :=
  (denormalize (snd (fst p)) logicalWidth, denormalize (snd p) logicalHeight).

Definition accepted (records : list Csv.record) : list (Z * float64 * float64) :=
  flat_map (fun r => match parsed r with Some p => [p] | None => [] end) records.

End WithScreen.

(** *** Observations on a trace *)

Definition moves (tr : list event) : list (Z * Z) :=
  flat_map (fun e => match e with Move x y => [(x, y)] | _ => [] end) tr.

Definition diagnostics (tr : list event) : list diagnostic :=
  flat_map (fun e => match e with LogPrintf d => [d] | _ => [] end) tr.

Definition sleeps (tr : list event) : list Z :=
  flat_map (fun e => match e with Sleep d => [d] | _ => [] end) tr.

(** The events that come before the first [Move]. *)
Fixpoint before_first_move (tr : list event) : list event :=
  match tr with
  | [] => []
  | Move _ _ :: _ => []
  | e :: r => e :: before_first_move r
  end.

(** Virtual time.  [time.Sleep(d)] returns at once when [d <= 0] and
    otherwise holds the goroutine for [d]; every other call takes the
    time [busy] assigns to it. *)
Definition duration (busy : event -> Z) (e : event) : Z :=
  match e with
  | Sleep d => Z.max 0 d
  | _ => busy e
  end.

Definition elapsed (busy : event -> Z) (tr : list event) : Z :=
  fold_right (fun e acc => duration busy e + acc) 0 tr.

Definition busy_total (busy : event -> Z) (tr : list event) : Z :=
  fold_right (fun e acc => match e with Sleep _ => acc | _ => busy e + acc end) 0 tr.

(** The arguments of the [time.Sleep] calls for timestamps [ts] read after
    [lastTimestamp]. *)
Fixpoint gaps (lastTimestamp : Z) (ts : list Z) : list Z :=
  match ts with
  | [] => []
  | t :: r => delay t lastTimestamp :: gaps t r
  end.

(** Offsets that do not decrease and whose steps, in nanoseconds, fit
    [int64]: [9223372036854 * 1000000 <= 2^63 - 1]. *)
Fixpoint paced (lastTimestamp : Z) (ts : list Z) : bool :=
  match ts with
  | [] => true
  | t :: r =>
      (lastTimestamp <=? t) && (t - lastTimestamp <=? 9223372036854) && paced t r
  end.


End Player.

(** ** [csv.Writer] over [bufio.Writer]

    [csv.NewWriter(file)] wraps the file in a [bufio.Writer] of the default
    size.  Bytes go to the file only when the buffer is full and another
    byte arrives, or on [Flush]. *)

Module Writer.

Definition defaultBufSize : nat := 4096.

Record t : Type := mk {
  file : string;      (* what has been handed to [file.Write] so far *)
  pending : string    (* what sits in the buffer *)
}.

Definition empty : t := mk EmptyString EmptyString.

Definition WriteByte (w : t) (c : ascii) : t :=
  if Nat.leb defaultBufSize (String.length (pending w))
  then mk (file w ++ pending w) (String c EmptyString)
  else mk (file w) (pending w ++ String c EmptyString).

Fixpoint WriteString (w : t) (s : string) : t :=
  match s with
  | EmptyString => w
  | String c r => WriteString (WriteByte w c) r
  end.

Definition Flush (w : t) : t := mk (file w ++ pending w) EmptyString.

(** One record as [csv.Writer.Write] lays it out when no field needs
    quoting (fields of digits, signs, points, letters and underscores
    never do): the fields separated by commas, then a line feed. *)
Fixpoint encode (r : Csv.record) : string :=
  match r with
  | [] => String "010"%char EmptyString
  | [f] => f ++ String "010"%char EmptyString
  | f :: r' => f ++ String ","%char (encode r')
  end.

Definition Write (w : t) (r : Csv.record) : t := WriteString w (encode r).

(** The bytes of a sequence of records, in order. *)
Definition encode_all (rs : list Csv.record) : string :=
  fold_right (fun r acc => (encode r ++ acc)%string) EmptyString rs.

End Writer.

(** ** The Recorder

    [main] of [src/recorder/main.go] after its start-up checks.  A run is
    driven by the ticks that [ticker.C] delivers before [ctx.Done()]; each
    tick carries what the outside answers during its handler and how long
    each call takes.

    The repository holds a second recorder of the same normalised rows,
    which cross-checks every sample against the estimator's answer and
    for that calls the estimator in the handler itself; its handler is
    [on_tick_crosscheck]. *)

Module Recorder.

Record geometry : Type := {
  logicalWidth : Z;      (* robotgo.GetScreenSize *)
  logicalHeight : Z;
  physicalWidth : Z;     (* screenshot.GetDisplayBounds(0).Dx() *)
  physicalHeight : Z
}.

(** What [model.GenerateContent] eventually does. *)
Inductive response : Type :=
| Answer (text : string)   (* a response whose first part is text *)
| NoText                  (* a response without such a part *)
| CallFailed              (* an error *)
| TimedOut.               (* no answer before the context's deadline: an error *)

Record tick : Type := {
  timestamp : Z;          (* t.Sub(startTime).Milliseconds() *)
  mouse : Z * Z;          (* robotgo.GetMousePos() *)
  capture_ok : bool;      (* screenshot.CaptureRect succeeded *)
  encode_ok : bool;       (* png.Encode succeeded *)
  debug_ok : bool;        (* os.WriteFile succeeded *)
  estimator : response;
  capture_ns : Z;         (* time spent in CaptureRect *)
  encode_ns : Z;          (* time spent drawing and in png.Encode *)
  debug_ns : Z;           (* time spent in os.WriteFile *)
  estimator_ns : Z        (* time until GenerateContent returns *)
}.

Inductive diagnostic : Type :=
| FailedCapture
| FailedEncode
| FailedDebugFile
| GeminiFailed
| Compared (raw : string).   (* "Ground Truth: ... vs Gemini: ... [Raw Gemini: raw]" *)

Inductive action : Type :=
| CsvWrite (r : Csv.record)          (* writer.Write(record) *)
| CaptureRect
| PngEncode
| WriteFile (drawX drawY : Z)        (* the debug screenshot *)
| GoGenerateContent (r : response)   (* go func() { model.GenerateContent ... }() *)
| GenerateContent (r : response)     (* res, err := model.GenerateContent(...) *)
| LogPrintf (d : diagnostic)
| Flush                              (* deferred writer.Flush() *)
| Close.                             (* deferred file.Close() *)

Definition header : Csv.record :=
  ["timestamp"%string; "norm_x"%string; "norm_y"%string].

Section WithGeometry.

Context {FL : FloatLib}.
Variable g : geometry.

Definition xScale : float64 :=
  fdiv (of_int (physicalWidth g)) (of_int (logicalWidth g)).
Definition yScale : float64 :=
  fdiv (of_int (physicalHeight g)) (of_int (logicalHeight g)).

(** Steps 1 and 2 of the handler: the row of the tick. *)
Definition sample (t : tick) : Csv.record :=
  let '(mouseX, mouseY) := mouse t in
  let normX := fdiv (of_int mouseX) (of_int (logicalWidth g)) in
  let normY := fdiv (of_int mouseY) (of_int (logicalHeight g)) in
  [Strconv.FormatInt (timestamp t); format_f8 normX; format_f8 normY].

(** The handler of [case t := <-ticker.C], in program order; [continue]
    ends it early. *)
Definition on_tick (t : tick) : list action :=
  let '(mouseX, mouseY) := mouse t in
  CsvWrite (sample t) ::
  CaptureRect ::
  if negb (capture_ok t) then [LogPrintf FailedCapture]
  else
    let drawX := to_int (fmul (of_int mouseX) xScale) in
    let drawY := to_int (fmul (of_int mouseY) yScale) in
    PngEncode ::
    if negb (encode_ok t) then [LogPrintf FailedEncode]
    else
      WriteFile drawX drawY ::
      (if negb (debug_ok t) then [LogPrintf FailedDebugFile] else [])
      ++ [GoGenerateContent (estimator t)].

(** The handler of the cross-checking recorder: the same row first, then
    capture, encoding and the debug file, then the estimator, called in
    the handler, and the comparison that is logged. *)
Definition on_tick_crosscheck (t : tick) : list action :=
  let '(mouseX, mouseY) := mouse t in
  CsvWrite (sample t) ::
  CaptureRect ::
  if negb (capture_ok t) then [LogPrintf FailedCapture]
  else
    let drawX := to_int (fmul (of_int mouseX) xScale) in
    let drawY := to_int (fmul (of_int mouseY) yScale) in
    PngEncode ::
    if negb (encode_ok t) then [LogPrintf FailedEncode]
    else
      WriteFile drawX drawY ::
      (if negb (debug_ok t) then [LogPrintf FailedDebugFile] else [])
      ++ GenerateContent (estimator t) ::
         match estimator t with
         | Answer text => [LogPrintf (Compared text)]
         | NoText => [LogPrintf (Compared "N/A")]
         | CallFailed | TimedOut => [LogPrintf GeminiFailed]
         end.

(** The loop up to [ctx.Done()], without the deferred calls. *)
Definition recording (ticks : list tick) : list action :=
  CsvWrite header :: flat_map on_tick ticks.

Definition main (ticks : list tick) : list action :=
  recording ticks ++ [Flush; Close].

End WithGeometry.

(** What the goroutine started by [GoGenerateContent] does on its own
    when the call returns: the result is dropped, an error is logged. *)
Definition goroutine (r : response) : list action :=
  match r with
  | Answer _ | NoText => []
  | CallFailed | TimedOut => [LogPrintf GeminiFailed]
  end.

(** How long an action keeps the tick loop from returning to [select].
    The [go] statement starts the call and does not wait for it; a call
    in the handler lasts until it returns. *)
Definition blocks (t : tick) (a : action) : Z :=
  match a with
  | CaptureRect => capture_ns t
  | PngEncode => encode_ns t
  | WriteFile _ _ => debug_ns t
  | GoGenerateContent _ => 0
  | GenerateContent _ => estimator_ns t
  | CsvWrite _ | LogPrintf _ | Flush | Close => 0
  end.

Definition busy (t : tick) (tr : list action) : Z :=
  fold_right (fun a acc => blocks t a + acc) 0 tr.

Definition handler_time {FL : FloatLib} (g : geometry) (t : tick) : Z :=
  busy t (on_tick g t).

Definition handler_time_crosscheck {FL : FloatLib} (g : geometry) (t : tick) : Z :=
  busy t (on_tick_crosscheck g t).

(** The period of [time.NewTicker(1 * time.Second)], in nanoseconds. *)
Definition period : Z := 1000000000.

(** The rows handed to [writer.Write], in order. *)
Definition rows (tr : list action) : list Csv.record :=
  flat_map (fun a => match a with CsvWrite r => [r] | _ => [] end) tr.

(** The state of the CSV writer after a trace. *)
Definition step (w : Writer.t) (a : action) : Writer.t :=
  match a with
  | CsvWrite r => Writer.Write w r
  | Flush => Writer.Flush w
  | _ => w
  end.

Definition exec (tr : list action) : Writer.t := fold_left step tr Writer.empty.

(** Two ticks that differ at most in what the estimator does and in how
    long it takes. *)
Definition same_but_estimator (a b : tick) : Prop :=
  timestamp a = timestamp b /\ mouse a = mouse b /\
  capture_ok a = capture_ok b /\ encode_ok a = encode_ok b /\
  debug_ok a = debug_ok b /\
  capture_ns a = capture_ns b /\ encode_ns a = encode_ns b /\
  debug_ns a = debug_ns b.

End Recorder.

(** ** binary64

    A finite [float64] is modelled by the rational it denotes.  Every
    operation computes the exact rational result and rounds it to the
    nearest binary64 value, ties to even, as IEEE 754 and Go prescribe:
    the significand has 53 bits and the exponent of the last place is at
    least -1074 (subnormal numbers).  Infinities, NaN and the sign of
    zero are not represented: division by zero and results of magnitude
    [2^1024] and more are outside this model. *)

Module Float64.

Local Open Scope Q_scope.

Definition pow2 (e : Z) : Q := 2 ^ e.

(** [floor (log2 q)] for [q > 0]. *)
Definition ilog2 (q : Q) : Z :=
  let k := (Z.log2 (Qnum q) - Z.log2 (Zpos (Qden q)))%Z in
  if Qle_bool (pow2 k) q then k else (k - 1)%Z.

(** Nearest integer, ties to even. *)
Definition rne (q : Q) : Z :=
  let f := Qfloor q in
  match Qcompare (q - inject_Z f) (1 # 2) with
  | Lt => f
  | Gt => (f + 1)%Z
  | Eq => if Z.even f then f else (f + 1)%Z
  end.

(** Exponent of the unit in the last place of a positive [a]. *)
Definition ulp_exp (a : Q) : Z := Z.max (ilog2 a - 52) (-1074).

Definition round_pos (a : Q) : Q :=
  let e := ulp_exp a in
  inject_Z (rne (a / pow2 e)) * pow2 e.

(** Round to nearest binary64, ties to even. *)
Definition RN (q : Q) : Q :=
  Qred (match Qcompare q 0 with
        | Eq => 0
        | Gt => round_pos q
        | Lt => - round_pos (- q)
        end).

(** The unit roundoff, and half the smallest subnormal step. *)
Definition u : Q := pow2 (-53).
Definition eta : Q := pow2 (-1075).

Definition of_int (n : Z) : Q := RN (inject_Z n).
Definition fdiv (a b : Q) : Q := RN (a / b).
Definition fmul (a b : Q) : Q := RN (a * b).

(** [int(f)]: the fraction is discarded (truncation towards zero).  Go
    leaves the result open when the value does not fit [int]; here it is
    the truncated value all the same. *)
Definition to_int (f : Q) : Z := Z.quot (Qnum f) (Zpos (Qden f)).

(** [fmt.Sprintf("%.8f", f)]: the exact value of [f] rounded to eight
    decimals, ties to even; a sign only when [f] is negative. *)
Definition scaled8 (f : Q) : Z := rne (Qabs f * inject_Z (10 ^ 8)).

Definition format_f8 (f : Q) : string :=
  let n := scaled8 f in
  let body :=
    (Digits.print_nat (n / 10 ^ 8)
     ++ String "."%char (Digits.string_of_digits (Digits.fixed_digits 8 (n mod 10 ^ 8))))%string in
  if Qlt_le_dec f 0 then String "-"%char body else body.

(** The part of [s] before the first point, and the part after it. *)
Fixpoint before_point (s : string) : string :=
  match s with
  | EmptyString => EmptyString
  | String c r => if Ascii.eqb c "."%char then EmptyString
                  else String c (before_point r)
  end.

Fixpoint after_point (s : string) : string :=
  match s with
  | EmptyString => EmptyString
  | String c r => if Ascii.eqb c "."%char then r else after_point r
  end.

(** The value of an unsigned decimal [digits [. digits]] with at least
    one digit. *)
Definition decimal_value (s : string) : option Q :=
  let ip := before_point s in
  let fp := after_point s in
  if Nat.eqb (String.length ip + String.length fp) 0 then None
  else
    match Digits.parse_acc ip 0, Digits.parse_acc fp 0 with
    | Some i, Some f =>
        let k := Z.of_nat (String.length fp) in
        Some (inject_Z (i * 10 ^ k + f) / inject_Z (10 ^ k))
    | _, _ => None
    end.

(** [strconv.ParseFloat(s, 64)] on decimal numerals without exponent,
    the form [%.8f] writes: an optional sign, digits, an optional point
    and digits.  The result is the nearest binary64; a numeral that
    rounds to [2^1024] or more is a range error.  The other forms Go
    accepts (exponents, hexadecimal, [Inf], [NaN]) are answered [None]
    here. *)
Definition ParseFloat (s : string) : option Q :=
  let '(neg, body) := Strconv.split_sign s in
  match decimal_value body with
  | Some v =>
      let r := RN v in
      if Qle_bool (pow2 1024) r then None
      else Some (if neg then Qred (- r) else r)
  | None => None
  end.

#[global] Instance binary64 : FloatLib :=
  Build_FloatLib Q of_int fdiv fmul to_int format_f8 ParseFloat.

End Float64.

(** ** The kernel's binary64, for comparison

    Rocq's primitive floats are IEEE 754 binary64 numbers computed by the
    processor.  They serve to test [Float64] on concrete inputs. *)

Module Hardware.

Definition to_Q (f : spec_float) : option Q :=
  match f with
  | S754_zero _ => Some 0%Q
  | S754_finite s m e =>
      Some (Qred ((if s then -1 else 1) * inject_Z (Zpos m) * Float64.pow2 e))
  | S754_infinity _ | S754_nan => None
  end.

Definition of_int (n : Z) : float := PrimFloat.of_uint63 (Uint63.of_Z n).

(** [float64(x) / float64(w)] *)
Definition quotient (x w : Z) : option Q :=
  to_Q (Prim2SF (PrimFloat.div (of_int x) (of_int w))).

(** [(float64(n) / float64(d)) * float64(w)] *)
Definition scaled (n d w : Z) : option Q :=
  to_Q (Prim2SF (PrimFloat.mul (PrimFloat.div (of_int n) (of_int d)) (of_int w))).

End Hardware.

(** ** Sample logs *)

Module Logs.

Local Open Scope string_scope.

(** The header the pixel-space recorders write. *)
Definition pixel_header : Csv.record := ["timestamp"; "x"; "y"].

(** Ten rows under the Recorder's header; the fifth has two fields. *)
Definition short_row : list Csv.record :=
  [ Recorder.header;
    ["1000"; "0.10000000"; "0.10000000"];
    ["2000"; "0.20000000"; "0.20000000"];
    ["3000"; "0.30000000"; "0.30000000"];
    ["4000"; "0.40000000"; "0.40000000"];
    ["5000"; "0.50000000"];
    ["6000"; "0.60000000"; "0.60000000"];
    ["7000"; "0.70000000"; "0.70000000"];
    ["8000"; "0.80000000"; "0.80000000"];
    ["9000"; "0.90000000"; "0.90000000"];
    ["10000"; "0.95000000"; "0.95000000"] ].

(** The same ten rows; the fifth has a coordinate that is no number. *)
Definition bad_number : list Csv.record :=
  [ Recorder.header;
    ["1000"; "0.10000000"; "0.10000000"];
    ["2000"; "0.20000000"; "0.20000000"];
    ["3000"; "0.30000000"; "0.30000000"];
    ["4000"; "0.40000000"; "0.40000000"];
    ["5000"; "oops"; "0.50000000"];
    ["6000"; "0.60000000"; "0.60000000"];
    ["7000"; "0.70000000"; "0.70000000"];
    ["8000"; "0.80000000"; "0.80000000"];
    ["9000"; "0.90000000"; "0.90000000"];
    ["10000"; "0.95000000"; "0.95000000"] ].

(** A recording whose first body row has a timestamp that is no number. *)
Definition bad_first_row : list Csv.record :=
  [ Recorder.header;
    ["start"; "0.50000000"; "0.50000000"];
    ["1000"; "0.50000000"; "0.50000000"];
    ["2000"; "0.25000000"; "0.75000000"] ].

(** Five samples, one second apart, as a 1 Hz ticker stamps them. *)
Definition five_seconds : list Csv.record :=
  [ Recorder.header;
    ["1000"; "0.10000000"; "0.10000000"];
    ["2000"; "0.20000000"; "0.20000000"];
    ["3000"; "0.30000000"; "0.30000000"];
    ["4000"; "0.40000000"; "0.40000000"];
    ["5000"; "0.50000000"; "0.50000000"] ].

(** Instructions that take no time, except the move to (192, 108),
    which takes three seconds. *)
Definition slow_first_move (e : Player.event) : Z :=
  match e with
  | Player.Move 192 108 => 3000000000
  | _ => 0
  end.

(** Two rows whose offsets decrease by more than [2^63] nanoseconds. *)
Definition far_back : list Csv.record :=
  [ Recorder.header;
    ["9223372036855"; "0.50000000"; "0.50000000"];
    ["0"; "0.50000000"; "0.50000000"] ].

(** Offsets that go back by one second, with a rejected row in between. *)
Definition one_second_back : list Csv.record :=
  [ ["2000"; "0.50000000"; "0.50000000"];
    ["later"; "0.50000000"; "0.50000000"];
    ["1000"; "0.25000000"; "0.75000000"] ].

(** A body row in pixels. *)
Definition pixel_row : Csv.record := ["0"; "100"; "200"].

(** A full-HD screen without display scaling. *)
Definition full_hd : Recorder.geometry :=
  {| Recorder.logicalWidth := 1920; Recorder.logicalHeight := 1080;
     Recorder.physicalWidth := 1920; Recorder.physicalHeight := 1080 |}.

(** A screen whose screenshots have twice the pixels of its pointer
    units in each axis. *)
Definition doubled : Recorder.geometry :=
  {| Recorder.logicalWidth := 1440; Recorder.logicalHeight := 900;
     Recorder.physicalWidth := 2880; Recorder.physicalHeight := 1800 |}.

(** A tick at [ms] with the pointer at [(x, y)], every call succeeding
    and the estimator answering [r] after [est_ns]. *)
Definition tick_at (ms x y : Z) (r : Recorder.response) (est_ns : Z) : Recorder.tick :=
  {| Recorder.timestamp := ms; Recorder.mouse := (x, y);
     Recorder.capture_ok := true; Recorder.encode_ok := true;
     Recorder.debug_ok := true; Recorder.estimator := r;
     Recorder.capture_ns := 30000000; Recorder.encode_ns := 80000000;
     Recorder.debug_ns := 5000000; Recorder.estimator_ns := est_ns |}.

End Logs.

(** ** [strings] *)

Module Strings.

(** [strings.Split(s, ",")]: the pieces between the commas, one more
    than there are commas. *)
Fixpoint Split (s : string) : list string :=
  match s with
  | EmptyString => [EmptyString]
  | String c r =>
      if Ascii.eqb c ","%char then EmptyString :: Split r
      else
        match Split r with
        | piece :: pieces => String c piece :: pieces
        | [] => [String c EmptyString]
        end
  end.

(** The pieces put together again, with commas between them. *)
Fixpoint Join (pieces : list string) : string :=
  match pieces with
  | [] => EmptyString
  | [piece] => piece
  | piece :: rest => (piece ++ String ","%char (Join rest))%string
  end.

Definition commas (s : string) : nat :=
  List.length (filter (fun c => Ascii.eqb c ","%char) (list_ascii_of_string s)).

(** Tab, line feed, vertical tab, form feed, carriage return, space. *)
Definition is_space (c : ascii) : bool :=
  match N_of_ascii c with
  | 9%N | 10%N | 11%N | 12%N | 13%N | 32%N => true
  | _ => false
  end.

Fixpoint trim_left (s : string) : string :=
  match s with
  | EmptyString => EmptyString
  | String c r => if is_space c then trim_left r else s
  end.

Fixpoint trim_right (s : string) : string :=
  match s with
  | EmptyString => EmptyString
  | String c r =>
      match trim_right r with
      | EmptyString => if is_space c then EmptyString else String c EmptyString
      | r' => String c r'
      end
  end.

(** [strings.TrimSpace] on text whose white space is ASCII.  (On text
    with other Unicode white space at its ends Go trims that, too; the
    programs are stated over an arbitrary [TrimSpace] for that reason.) *)
Definition TrimSpace_ascii (s : string) : string := trim_right (trim_left s).

End Strings.

(** ** The pixel-space programs

    Beside the programs of the normalised log the repository holds a
    recorder and a player that exchange positions in screenshot pixels,
    and a recorder and a player that scale them by the ratio of the
    logical to the physical screen size.  The recorders of this family
    log what the estimator answers, not the pointer's position.  They
    share the header [timestamp, x, y]. *)

Module Pixels.

Definition header : Csv.record :=
  ["timestamp"%string; "x"%string; "y"%string].

(** *** The recorder that writes the estimator's answer as it is *)

Section Recorders.

Context {FL : FloatLib}.
Variable TrimSpace : string -> string.
Variable g : Recorder.geometry.

(** [coords := strings.Split(strings.TrimSpace(text), ",")] and, when
    there are two pieces, the row made of them. *)
Definition verbatim_row (t : Recorder.tick) (text : string) : list Recorder.action :=
  match Strings.Split (TrimSpace text) with
  | [x; y] => [Recorder.CsvWrite [Strconv.FormatInt (Recorder.timestamp t); x; y]]
  | _ => []
  end.

Definition on_tick_verbatim (t : Recorder.tick) : list Recorder.action :=
  let '(mouseX, mouseY) := Recorder.mouse t in
  Recorder.CaptureRect ::
  if negb (Recorder.capture_ok t) then [Recorder.LogPrintf Recorder.FailedCapture]
  else
    let drawX := to_int (fmul (of_int mouseX) (Recorder.xScale g)) in
    let drawY := to_int (fmul (of_int mouseY) (Recorder.yScale g)) in
    Recorder.PngEncode ::
    if negb (Recorder.encode_ok t) then [Recorder.LogPrintf Recorder.FailedEncode]
    else
      Recorder.WriteFile drawX drawY ::
      (if negb (Recorder.debug_ok t)
       then [Recorder.LogPrintf Recorder.FailedDebugFile] else [])
      ++ Recorder.GenerateContent (Recorder.estimator t) ::
         match Recorder.estimator t with
         | Recorder.Answer text => verbatim_row t text
         | Recorder.NoText => []
         | Recorder.CallFailed | Recorder.TimedOut =>
             [Recorder.LogPrintf Recorder.GeminiFailed]
         end.

Definition record_verbatim (ticks : list Recorder.tick) : list Recorder.action :=
  Recorder.CsvWrite header :: flat_map on_tick_verbatim ticks
  ++ [Recorder.Flush; Recorder.Close].

(** *** The recorder that scales the estimator's answer *)

(** Logical over physical: from screenshot pixels to pointer units. *)
Definition xScale : float64 :=
  fdiv (of_int (Recorder.logicalWidth g)) (of_int (Recorder.physicalWidth g)).
Definition yScale : float64 :=
  fdiv (of_int (Recorder.logicalHeight g)) (of_int (Recorder.physicalHeight g)).

(** [int(float64(raw) * scale)] *)
Definition scale_to_logical (raw : Z) (scale : float64) : Z :=
  to_int (fmul (of_int raw) scale).

Definition scaled_row (t : Recorder.tick) (text : string) : list Recorder.action :=
  match Strings.Split (TrimSpace text) with
  | [sx; sy] =>
      match Strconv.Atoi sx, Strconv.Atoi sy with
      | Some geminiX, Some geminiY =>
          let finalX := scale_to_logical geminiX xScale in
          let finalY := scale_to_logical geminiY yScale in
          [Recorder.CsvWrite [Strconv.FormatInt (Recorder.timestamp t);
                              Strconv.FormatInt finalX; Strconv.FormatInt finalY]]
      | _, _ => []
      end
  | _ => []
  end.

Definition on_tick_scaled (t : Recorder.tick) : list Recorder.action :=
  Recorder.CaptureRect ::
  if negb (Recorder.capture_ok t) then [Recorder.LogPrintf Recorder.FailedCapture]
  else
    Recorder.PngEncode ::
    if negb (Recorder.encode_ok t) then [Recorder.LogPrintf Recorder.FailedEncode]
    else
      Recorder.GenerateContent (Recorder.estimator t) ::
      match Recorder.estimator t with
      | Recorder.Answer text => scaled_row t text
      | Recorder.NoText => []
      | Recorder.CallFailed | Recorder.TimedOut =>
          [Recorder.LogPrintf Recorder.GeminiFailed]
      end.

(** [None] stands for the [log.Fatal] on a physical size of zero, which
    comes before the file is created. *)
Definition record_scaled (ticks : list Recorder.tick) : option (list Recorder.action) :=
  if (Recorder.physicalWidth g =? 0) || (Recorder.physicalHeight g =? 0) then None
  else Some (Recorder.CsvWrite header :: flat_map on_tick_scaled ticks
             ++ [Recorder.Flush; Recorder.Close]).

End Recorders.

(** *** The player that moves to the recorded integers *)

Fixpoint playback_raw (i : nat) (lastTimestamp : Z) (records : list Csv.record)
  : list Player.event :=
  match records with
  | [] => []
  | record :: rest =>
      if negb (Nat.eqb (List.length record) 3) then
        Player.LogPrintf (Player.SkippingMalformed record)
        :: playback_raw (S i) lastTimestamp rest
      else
        match Strconv.ParseInt (nth 0 record EmptyString) with
        | None =>
            Player.LogPrintf Player.FailedTimestamp :: playback_raw (S i) lastTimestamp rest
        | Some timestamp =>
            match Strconv.Atoi (nth 1 record EmptyString) with
            | None => Player.LogPrintf Player.FailedX :: playback_raw (S i) lastTimestamp rest
            | Some x =>
                match Strconv.Atoi (nth 2 record EmptyString) with
                | None =>
                    Player.LogPrintf Player.FailedY :: playback_raw (S i) lastTimestamp rest
                | Some y =>
                    (if Nat.ltb 0 i
                     then [Player.Sleep (Player.delay timestamp lastTimestamp)]
                     else [])
                    ++ Player.Move x y :: playback_raw (S i) timestamp rest
                end
            end
        end
  end.

Definition play_raw (file : list Csv.record) : Player.outcome :=
  match Csv.ReadAll file with
  | None => Player.Fatal
  | Some records =>
      let records := match records with [] => [] | _ :: body => body end in
      Player.Finished (playback_raw 0 0 records)
  end.

(** *** The player that scales the recorded integers *)

Section ScalingPlayer.

Context {FL : FloatLib}.
Variable g : Recorder.geometry.

Fixpoint playback_scaled (i : nat) (lastTimestamp : Z) (records : list Csv.record)
  : list Player.event :=
  match records with
  | [] => []
  | record :: rest =>
      if negb (Nat.eqb (List.length record) 3) then
        Player.LogPrintf (Player.SkippingMalformed record)
        :: playback_scaled (S i) lastTimestamp rest
      else
        match Strconv.ParseInt (nth 0 record EmptyString) with
        | None =>
            Player.LogPrintf Player.FailedTimestamp
            :: playback_scaled (S i) lastTimestamp rest
        | Some timestamp =>
            match Strconv.Atoi (nth 1 record EmptyString) with
            | None =>
                Player.LogPrintf Player.FailedX :: playback_scaled (S i) lastTimestamp rest
            | Some rawX =>
                match Strconv.Atoi (nth 2 record EmptyString) with
                | None =>
                    Player.LogPrintf Player.FailedY
                    :: playback_scaled (S i) lastTimestamp rest
                | Some rawY =>
                    (if Nat.ltb 0 i
                     then [Player.Sleep (Player.delay timestamp lastTimestamp)]
                     else [])
                    ++ Player.Move (scale_to_logical rawX (xScale g))
                                   (scale_to_logical rawY (yScale g))
                    :: playback_scaled (S i) timestamp rest
                end
            end
        end
  end.

(** The file is read first; the physical size is checked after it. *)
Definition play_scaled (file : list Csv.record) : Player.outcome :=
  match Csv.ReadAll file with
  | None => Player.Fatal
  | Some records =>
      let records := match records with [] => [] | _ :: body => body end in
      if (Recorder.physicalWidth g =? 0) || (Recorder.physicalHeight g =? 0)
      then Player.Fatal
      else Player.Finished (playback_scaled 0 0 records)
  end.

End ScalingPlayer.

(** The fields of a record that the two players accept. *)
Definition parsed (record : Csv.record) : option (Z * Z * Z) :=
  if negb (Nat.eqb (List.length record) 3) then None
  else
    match Strconv.ParseInt (nth 0 record EmptyString),
          Strconv.Atoi (nth 1 record EmptyString),
          Strconv.Atoi (nth 2 record EmptyString) with
    | Some timestamp, Some x, Some y => Some (timestamp, x, y)
    | _, _, _ => None
    end.

Definition accepted (records : list Csv.record) : list (Z * Z * Z) :=
  flat_map (fun r => match parsed r with Some p => [p] | None => [] end) records.

End Pixels.

(** ** Observations on a recorder's trace and on a run *)

Module Run.

(** The estimator calls started in a goroutine, and those made in the
    handler, in order. *)
Definition started (tr : list Recorder.action) : list Recorder.response :=
  flat_map (fun a => match a with Recorder.GoGenerateContent r => [r] | _ => [] end) tr.

Definition called (tr : list Recorder.action) : list Recorder.response :=
  flat_map (fun a => match a with Recorder.GenerateContent r => [r] | _ => [] end) tr.

(** A tick whose screenshot was captured and encoded. *)
Definition pictured (t : Recorder.tick) : bool :=
  Recorder.capture_ok t && Recorder.encode_ok t.

(** A tick with the pointer on the screen and a timestamp that is an
    [int64], as [Milliseconds()] returns. *)
Definition on_screen (g : Recorder.geometry) (t : Recorder.tick) : Prop :=
  0 <= fst (Recorder.mouse t) < Recorder.logicalWidth g
  /\ 0 <= snd (Recorder.mouse t) < Recorder.logicalHeight g
  /\ Int64.in_range (Recorder.timestamp t) = true.

(** A played position that is the recorded one or one unit short of it
    in each axis. *)
Definition near (t : Recorder.tick) (m : Z * Z) : Prop :=
  fst (Recorder.mouse t) - 1 <= fst m <= fst (Recorder.mouse t)
  /\ snd (Recorder.mouse t) - 1 <= snd m <= snd (Recorder.mouse t).

(** The steps between consecutive timestamps, in nanoseconds. *)
Fixpoint steps (lastTimestamp : Z) (ts : list Z) : list Z :=
  match ts with
  | [] => []
  | t :: r => (t - lastTimestamp) * Player.Millisecond :: steps t r
  end.

(** A row whose coordinates, if it is accepted, are not negative and
    below [2^53], so that [float64] holds them exactly. *)
Definition exact_row (r : Csv.record) : Prop :=
  match Pixels.parsed r with
  | Some (_, x, y) => 0 <= x < 2 ^ 53 /\ 0 <= y < 2 ^ 53
  | None => True
  end.

End Run.

(** * Properties *)

(** ** Machine integers *)

(** Within [int64] nothing wraps. *)
Lemma wrap_in_range (z : Z) :
  Int64.min_int <= z <= Int64.max_int -> Int64.wrap z = z.
Proof.
  unfold Int64.wrap, Int64.modulus, Int64.min_int, Int64.max_int.
  intros Hz. rewrite Z.mod_small; lia.
Qed.

Lemma delay_exact (t last : Z) :
  -9223372036854 <= t - last <= 9223372036854 ->
  Player.delay t last = (t - last) * Player.Millisecond.
Proof.
  intros Hd. unfold Player.delay, Int64.mul, Int64.sub, Player.Millisecond.
  rewrite (wrap_in_range (t - last)).
  - apply wrap_in_range. unfold Int64.min_int, Int64.max_int. lia.
  - unfold Int64.min_int, Int64.max_int. lia.
Qed.

(** ** The Player's loop, row by row *)

Section PlayerLoop.

Context {FL : FloatLib}.
Variables W H : Z.

Lemma playback_accept i last r rest p :
  Player.parsed r = Some p ->
  Player.playback W H i last (r :: rest) =
  (if Nat.ltb 0 i then [Player.Sleep (Player.delay (Player.offset p) last)] else [])
  ++ Player.Move (fst (Player.position W H p)) (snd (Player.position W H p))
  :: Player.playback W H (S i) (Player.offset p) rest.
Proof.
  unfold Player.parsed. cbn [Player.playback].
  destruct (negb (Nat.eqb (List.length r) 3)); [discriminate|].
  destruct (Strconv.ParseInt (nth 0 r EmptyString)) as [t|]; [|discriminate].
  destruct (ParseFloat (nth 1 r EmptyString)) as [x|]; [|discriminate].
  destruct (ParseFloat (nth 2 r EmptyString)) as [y|]; [|discriminate].
  intros [= <-]. reflexivity.
Qed.

Lemma playback_skip i last r rest :
  Player.parsed r = None ->
  exists d, Player.playback W H i last (r :: rest) =
            Player.LogPrintf d :: Player.playback W H (S i) last rest.
Proof.
  unfold Player.parsed. cbn [Player.playback].
  destruct (negb (Nat.eqb (List.length r) 3)); [eauto|].
  destruct (Strconv.ParseInt (nth 0 r EmptyString)) as [t|]; [|eauto].
  destruct (ParseFloat (nth 1 r EmptyString)) as [x|]; [|eauto].
  destruct (ParseFloat (nth 2 r EmptyString)) as [y|]; [|eauto].
  discriminate.
Qed.

(** Positions are issued for the accepted rows, in file order, whatever
    the rows in between and whatever the timestamps. *)
Lemma moves_playback records : forall i last,
  Player.moves (Player.playback W H i last records) =
  map (Player.position W H) (Player.accepted records).
Proof.
  induction records as [|r rest IH]; intros i last; [reflexivity|].
  cbn [Player.accepted flat_map].
  destruct (Player.parsed r) as [p|] eqn:Hp.
  - rewrite (playback_accept _ _ _ _ _ Hp).
    unfold Player.moves. rewrite flat_map_app. cbn [flat_map app map].
    fold (Player.moves (Player.playback W H (S i) (Player.offset p) rest)).
    rewrite IH. destruct (Nat.ltb 0 i); reflexivity.
  - destruct (playback_skip i last r rest Hp) as [d ->].
    cbn. apply IH.
Qed.

(** One diagnostic per rejected row, none for an accepted one. *)
Lemma diagnostics_playback records : forall i last,
  List.length (Player.diagnostics (Player.playback W H i last records)) =
  List.length (filter (fun r => match Player.parsed r with None => true | _ => false end) records).
Proof.
  induction records as [|r rest IH]; intros i last; [reflexivity|].
  cbn [filter].
  destruct (Player.parsed r) as [p|] eqn:Hp.
  - rewrite (playback_accept _ _ _ _ _ Hp).
    unfold Player.diagnostics. rewrite flat_map_app. cbn [flat_map app].
    fold (Player.diagnostics (Player.playback W H (S i) (Player.offset p) rest)).
    rewrite <- (IH (S i) (Player.offset p)).
    destruct (Nat.ltb 0 i); reflexivity.
  - destruct (playback_skip i last r rest Hp) as [d ->].
    cbn. f_equal. apply IH.
Qed.

(** After the first index, every accepted row is preceded by a sleep for
    the step from the previous accepted timestamp. *)
Lemma sleeps_playback_later records : forall i last,
  (0 < i)%nat ->
  Player.sleeps (Player.playback W H i last records) =
  Player.gaps last (map Player.offset (Player.accepted records)).
Proof.
  induction records as [|r rest IH]; intros i last Hi; [reflexivity|].
  cbn [Player.accepted flat_map].
  destruct (Player.parsed r) as [p|] eqn:Hp.
  - rewrite (playback_accept _ _ _ _ _ Hp).
    destruct (Nat.ltb_spec 0 i) as [_|]; [|lia].
    cbn. f_equal. apply (IH (S i)). lia.
  - destruct (playback_skip i last r rest Hp) as [d ->].
    cbn. apply (IH (S i)). lia.
Qed.

Lemma playback_rejected skipped : forall i last rest,
  Forall (fun r => Player.parsed r = None) skipped ->
  exists ds,
    Player.playback W H i last (skipped ++ rest) =
    map Player.LogPrintf ds ++ Player.playback W H (List.length skipped + i) last rest
    /\ List.length ds = List.length skipped.
Proof.
  induction skipped as [|r sk IH]; intros i last rest Hs.
  - exists []. split; reflexivity.
  - inversion Hs as [|? ? Hr Hsk]; subst.
    destruct (playback_skip i last r (sk ++ rest) Hr) as [d Hd].
    destruct (IH (S i) last rest Hsk) as [ds [Hds Hlen]].
    exists (d :: ds). cbn [app map List.length]. rewrite Hd, Hds.
    split; [|now rewrite Hlen].
    replace (List.length sk + S i)%nat with (S (List.length sk) + i)%nat by lia.
    reflexivity.
Qed.

End PlayerLoop.

(** ** Loading the log *)

Section PlayerLoad.

Context {FL : FloatLib}.
Variables W H : Z.

Lemma parsed_three_fields r p :
  Player.parsed r = Some p -> List.length r = 3%nat.
Proof.
  unfold Player.parsed.
  destruct (Nat.eqb_spec (List.length r) 3) as [->|]; cbn; [reflexivity|discriminate].
Qed.

(** A row whose field count differs from the header's stops the load:
    [ReadAll] reports it and [main] ends in [log.Fatalf]. *)
Lemma wrong_field_count_fatal (hdr : Csv.record) before (r : Csv.record) after :
  List.length r <> List.length hdr ->
  Player.main W H (hdr :: before ++ r :: after) = Player.Fatal.
Proof.
  intros Hlen. unfold Player.main, Csv.ReadAll.
  rewrite forallb_app. cbn [forallb].
  destruct (Nat.eqb_spec (List.length r) (List.length hdr)) as [E|_]; [contradiction|].
  rewrite andb_false_r. cbn. reflexivity.
Qed.

Lemma ReadAll_same_count (hdr : Csv.record) (body : list Csv.record) :
  Forall (fun r => List.length r = List.length hdr) body ->
  Csv.ReadAll (hdr :: body) = Some (hdr :: body).
Proof.
  intros Hb. unfold Csv.ReadAll.
  replace (forallb _ body) with true; [reflexivity|].
  symmetry. apply forallb_forall. intros r Hr.
  rewrite Forall_forall in Hb. rewrite (Hb r Hr). apply Nat.eqb_refl.
Qed.

(** A three-field row with a field that is no number is skipped with one
    diagnostic; the rows around it are played in their order. *)
Lemma unparsable_row_skipped (hdr : Csv.record) before (bad : Csv.record) after :
  List.length hdr = 3%nat ->
  List.length bad = 3%nat ->
  Player.parsed bad = None ->
  Forall (fun r => Player.parsed r <> None) (before ++ after) ->
  exists tr,
    Player.main W H (hdr :: before ++ bad :: after) = Player.Finished tr
    /\ Player.moves tr = map (Player.position W H) (Player.accepted (before ++ after))
    /\ List.length (Player.diagnostics tr) = 1%nat.
Proof.
  intros Hh Hb Hbad Hok.
  assert (Hparsed : forall l, Forall (fun r => Player.parsed r <> None) l ->
            filter (fun r => match Player.parsed r with None => true | _ => false end) l = []
            /\ Forall (fun r => List.length r = 3%nat) l).
  { induction l as [|r l IH]; intros Hl; [split; constructor|].
    inversion Hl as [|? ? Hr Hl']; subst. destruct (IH Hl') as (Hf & Hc).
    destruct (Player.parsed r) as [p|] eqn:Hp; [|contradiction].
    split.
    - cbn. rewrite Hp. exact Hf.
    - constructor; [exact (parsed_three_fields _ _ Hp)|exact Hc]. }
  apply Forall_app in Hok as [Hbefore Hafter].
  destruct (Hparsed _ Hbefore) as (Fb & Cb).
  destruct (Hparsed _ Hafter) as (Fa & Ca).
  unfold Player.main. rewrite ReadAll_same_count.
  - eexists. split; [reflexivity|]. split.
    + rewrite moves_playback. unfold Player.accepted.
      rewrite !flat_map_app. cbn [flat_map]. rewrite Hbad. reflexivity.
    + rewrite diagnostics_playback, filter_app. cbn [filter].
      rewrite Hbad, Fb, Fa. reflexivity.
  - rewrite Hh. apply Forall_app. split; [exact Cb|].
    constructor; [exact Hb|exact Ca].
Qed.

End PlayerLoad.

(** C1.  A log with one malformed row among nine valid ones should lose
    that row only.  The Player does so for a row with an unparsable
    number ([unparsable_row_skipped]), but on a row with another field
    count than the header the load is fatal: here, on [Logs.short_row],
    [main] plays nothing at all. *)
Theorem short_row_is_fatal :
  Player.main (FL := Float64.binary64) 1920 1080 Logs.short_row = Player.Fatal.
Proof. reflexivity. Qed.

(** The same recording with a bad number in place of the short row:
    nine positions in file order and one diagnostic. *)
Example bad_number_is_skipped :
  Player.main (FL := Float64.binary64) 1920 1080 Logs.bad_number =
  Player.Finished
    [ Player.Move 192 108;
      Player.Sleep 1000000000; Player.Move 384 216;
      Player.Sleep 1000000000; Player.Move 576 324;
      Player.Sleep 1000000000; Player.Move 768 432;
      Player.LogPrintf Player.FailedX;
      Player.Sleep 2000000000; Player.Move 1152 648;
      Player.Sleep 1000000000; Player.Move 1344 756;
      Player.Sleep 1000000000; Player.Move 1536 864;
      Player.Sleep 1000000000; Player.Move 1728 972;
      Player.Sleep 1000000000; Player.Move 1824 1026 ].
Proof. vm_compute. reflexivity. Qed.

(** ** Sleeping between the rows *)

Section PlayerTiming.

Context {FL : FloatLib}.
Variables W H : Z.

(** When the first body row is accepted, nothing precedes its move. *)
Lemma first_row_not_delayed r rest p :
  Player.parsed r = Some p ->
  Player.before_first_move (Player.playback W H 0 0 (r :: rest)) = [].
Proof.
  intros Hp. rewrite (playback_accept W H 0 0 r rest p Hp). reflexivity.
Qed.

(** When the first body row is rejected, the index test [i > 0] lets the
    first accepted row sleep for its whole offset. *)
Lemma leading_skip_sleeps r r' rest p :
  Player.parsed r = None ->
  Player.parsed r' = Some p ->
  exists d,
    Player.before_first_move (Player.playback W H 0 0 (r :: r' :: rest)) =
    [Player.LogPrintf d; Player.Sleep (Player.delay (Player.offset p) 0)].
Proof.
  intros Hr Hp. destruct (playback_skip W H 0 0 r (r' :: rest) Hr) as [d ->].
  rewrite (playback_accept W H 1 0 r' rest p Hp). exists d. reflexivity.
Qed.

Lemma last_cons (r : list Z) : forall t d, List.last (t :: r) d = List.last r t.
Proof.
  clear W H. induction r as [|a r IH]; intros t d; [reflexivity|].
  change (List.last (t :: a :: r) d) with (List.last (a :: r) d).
  rewrite (IH a d), (IH a t). reflexivity.
Qed.

Lemma gaps_paced ts : forall last,
  Player.paced last ts = true ->
  fold_right (fun d acc => Z.max 0 d + acc) 0 (Player.gaps last ts) =
  (List.last ts last - last) * Player.Millisecond.
Proof.
  clear W H. induction ts as [|t r IH]; intros last Hp.
  - cbn. lia.
  - cbn [Player.paced] in Hp.
    apply andb_prop in Hp as [Hp Hr]. apply andb_prop in Hp as [H1 H2].
    apply Z.leb_le in H1, H2.
    cbn [Player.gaps fold_right]. rewrite (IH t Hr).
    rewrite delay_exact by lia.
    rewrite last_cons. unfold Player.Millisecond. lia.
Qed.

Lemma elapsed_split busy tr :
  Player.elapsed busy tr =
  fold_right (fun d acc => Z.max 0 d + acc) 0 (Player.sleeps tr)
  + Player.busy_total busy tr.
Proof.
  clear W H. induction tr as [|e tr IH]; [reflexivity|].
  cbn [Player.elapsed fold_right Player.sleeps flat_map Player.busy_total].
  fold (Player.elapsed busy tr). fold (Player.sleeps tr). fold (Player.busy_total busy tr).
  destruct e; cbn; lia.
Qed.

End PlayerTiming.

(** C5.  The Player should not sleep before the first positioning
    command, also when leading rows were skipped.  On [Logs.bad_first_row]
    the first body row is rejected and the first command is preceded by a
    sleep of one second, the whole offset of the first accepted row. *)
Theorem leading_skip_sleeps_before_first_move :
  Player.main (FL := Float64.binary64) 1920 1080 Logs.bad_first_row =
  Player.Finished
    [ Player.LogPrintf Player.FailedTimestamp;
      Player.Sleep 1000000000; Player.Move 960 540;
      Player.Sleep 1000000000; Player.Move 480 810 ].
Proof. vm_compute. reflexivity. Qed.

(** C6, as stated, at [Logs.five_seconds]: with instructions that take no
    time at all the playback lasts 4000 ms, the last offset is 5000 ms,
    and the difference is far from the 50 ms of tolerance; and when the
    first move alone takes three seconds, the playback lasts 7000 ms:
    the three seconds are never made up for. *)
Lemma five_seconds_play_in_four :
  exists tr,
    Player.main (FL := Float64.binary64) 1920 1080 Logs.five_seconds = Player.Finished tr
    /\ Player.elapsed (fun _ => 0) tr = 4000 * Player.Millisecond
    /\ 50 * Player.Millisecond
       < Z.abs (Player.elapsed (fun _ => 0) tr - 5000 * Player.Millisecond)
    /\ Player.elapsed Logs.slow_first_move tr = 7000 * Player.Millisecond.
Proof. eexists. split; [vm_compute; reflexivity|]. repeat split. Qed.

(** C6, amended.  For a recording whose body rows are all accepted, with
    offsets that do not decrease (and steps that fit the nanosecond
    range), the sleeps add up to the last offset minus the first one, and
    the time the other calls take comes on top of it: the playback lasts
    [(last - first) ms + busy time], so a slow instruction shifts every
    later command by its duration. *)
Theorem playback_elapsed {FL : FloatLib} (W H : Z) (busy : Player.event -> Z)
    (hdr first : Csv.record) (rest : list Csv.record)
    (p : Z * float64 * float64) (ps : list (Z * float64 * float64)) :
  Forall (fun r => List.length r = List.length hdr) (first :: rest) ->
  Player.parsed first = Some p ->
  map Player.parsed rest = map Some ps ->
  Player.paced (Player.offset p) (map Player.offset ps) = true ->
  exists tr,
    Player.main W H (hdr :: first :: rest) = Player.Finished tr
    /\ Player.elapsed busy tr =
       (List.last (map Player.offset ps) (Player.offset p) - Player.offset p)
       * Player.Millisecond
       + Player.busy_total busy tr.
Proof.
  intros Hcount Hp Hps Hpaced.
  unfold Player.main. rewrite (ReadAll_same_count hdr _ Hcount).
  eexists. split; [reflexivity|].
  rewrite elapsed_split. f_equal.
  rewrite (playback_accept W H 0 0 first rest p Hp).
  cbn [Nat.ltb Nat.leb app Player.sleeps flat_map].
  fold (Player.sleeps (Player.playback W H 1 (Player.offset p) rest)).
  rewrite sleeps_playback_later by lia.
  replace (Player.accepted rest) with ps.
  - apply gaps_paced. exact Hpaced.
  - clear - Hps. revert ps Hps. induction rest as [|r rest IH]; intros [|q ps] Hps;
      try discriminate; [reflexivity|].
    cbn in Hps. injection Hps as Hr Hrest.
    cbn. rewrite Hr. cbn. f_equal. apply IH. exact Hrest.
Qed.

Lemma playback_elapsed_witness :
  exists tr,
    Player.main (FL := Float64.binary64) 1920 1080 Logs.five_seconds = Player.Finished tr
    /\ Player.elapsed (fun _ => 7) tr =
       (5000 - 1000) * Player.Millisecond + Player.busy_total (fun _ => 7) tr.
Proof.
  pose (first := nth 1 Logs.five_seconds []).
  pose (rest := skipn 2 Logs.five_seconds).
  exact (playback_elapsed (FL := Float64.binary64) 1920 1080 (fun _ => 7)
           Recorder.header first rest
           (hd (0, 0%Q, 0%Q) (Player.accepted [first])) (Player.accepted rest)
           ltac:(repeat constructor)
           ltac:(vm_compute; reflexivity)
           ltac:(vm_compute; reflexivity)
           ltac:(vm_compute; reflexivity)).
Defined.

(** C10, as stated, at [Logs.far_back]: the second offset is smaller than
    the first, yet the step times [time.Millisecond] wraps around [int64]
    to a positive duration and the Player sleeps for it (some 292 years)
    before the second command. *)
Lemma far_back_blocks :
  Player.main (FL := Float64.binary64) 1920 1080 Logs.far_back =
  Player.Finished
    [ Player.Move 960 540; Player.Sleep 9223372036854551616; Player.Move 960 540 ]
  /\ Player.delay 0 9223372036855 = 9223372036854551616
  /\ Player.duration (fun _ => 0) (Player.Sleep (Player.delay 0 9223372036855))
     = 9223372036854551616.
Proof. split; [vm_compute; reflexivity|]. split; reflexivity. Qed.

(** C10, amended.  For two accepted rows with only rejected rows between
    them, whose offsets are equal or go back by at most 9223372036854 ms
    (so that the step in nanoseconds fits [int64]), the Player sleeps
    with a duration that is not positive, which takes no time, and goes
    on; whatever the offsets, the positions are issued for the accepted
    rows in file order. *)
Theorem offsets_going_back_do_not_wait {FL : FloatLib} (W H : Z)
    (busy : Player.event -> Z) (i : nat) (last : Z)
    (r1 r2 : Csv.record) (skipped rest : list Csv.record)
    (p1 p2 : Z * float64 * float64) :
  Player.parsed r1 = Some p1 ->
  Forall (fun r => Player.parsed r = None) skipped ->
  Player.parsed r2 = Some p2 ->
  Player.offset p1 - 9223372036854 <= Player.offset p2 <= Player.offset p1 ->
  let records := r1 :: skipped ++ r2 :: rest in
  let d := Player.delay (Player.offset p2) (Player.offset p1) in
  (exists pre ds,
     Player.playback W H i last records =
     pre ++ Player.Move (fst (Player.position W H p1)) (snd (Player.position W H p1))
         :: map Player.LogPrintf ds
         ++ Player.Sleep d
         :: Player.Move (fst (Player.position W H p2)) (snd (Player.position W H p2))
         :: Player.playback W H (S (List.length skipped + S i)) (Player.offset p2) rest)
  /\ d <= 0
  /\ Player.duration busy (Player.Sleep d) = 0
  /\ Player.moves (Player.playback W H i last records) =
     map (Player.position W H) (Player.accepted records).
Proof.
  intros H1 Hs H2 Hback records d.
  assert (Hd : d <= 0).
  { unfold d. rewrite delay_exact by lia. unfold Player.Millisecond. lia. }
  split; [|split; [exact Hd|split; [cbn; lia|apply moves_playback]]].
  unfold records. rewrite (playback_accept W H i last r1 _ p1 H1).
  destruct (playback_rejected W H skipped (S i) (Player.offset p1) (r2 :: rest) Hs)
    as (ds & Hds & _).
  rewrite Hds, (playback_accept W H _ _ r2 rest p2 H2).
  replace (Nat.ltb 0 (List.length skipped + S i)) with true
    by (symmetry; apply Nat.ltb_lt; lia).
  exists (if Nat.ltb 0 i then [Player.Sleep (Player.delay (Player.offset p1) last)] else []), ds.
  reflexivity.
Qed.

Lemma offsets_going_back_witness :
  Player.moves (Player.playback (FL := Float64.binary64) 1920 1080 0 0 Logs.one_second_back)
  = [(960, 540); (480, 810)]
  /\ Player.delay 1000 2000 <= 0
  /\ Player.duration (fun _ => 0) (Player.Sleep (Player.delay 1000 2000)) = 0.
Proof.
  pose (r1 := nth 0 Logs.one_second_back []).
  pose (r2 := nth 2 Logs.one_second_back []).
  destruct (offsets_going_back_do_not_wait (FL := Float64.binary64) 1920 1080
              (fun _ => 0) 0 0 r1 r2 [nth 1 Logs.one_second_back []] []
              (hd (0, 0%Q, 0%Q) (Player.accepted (FL := Float64.binary64) [r1]))
              (hd (0, 0%Q, 0%Q) (Player.accepted (FL := Float64.binary64) [r2]))
              ltac:(vm_compute; reflexivity)
              ltac:(repeat constructor)
              ltac:(vm_compute; reflexivity)
              ltac:(vm_compute; split; discriminate))
    as (_ & Hd & Hz & Hm).
  split; [|split].
  - vm_compute. reflexivity.
  - exact Hd.
  - exact Hz.
Defined.

(** ** The header, as the Player treats it *)

(** The Player drops the first record without looking at its fields:
    two headers of the same length give the same playback. *)
Lemma header_is_not_read {FL : FloatLib} (W H : Z) (h1 h2 : Csv.record)
    (body : list Csv.record) :
  List.length h1 = List.length h2 ->
  Player.main W H (h1 :: body) = Player.main W H (h2 :: body).
Proof.
  intros Hlen. unfold Player.main, Csv.ReadAll. rewrite Hlen.
  destruct (forallb (fun r => Nat.eqb (List.length r) (List.length h2)) body); reflexivity.
Qed.

(** C8, as stated, at a log whose header names pixel columns: the
    Player plays it exactly as it plays the same body under the
    normalised header, taking the pixel position (100, 200) for a
    normalised one and moving to (192000, 216000). *)
Lemma pixel_header_is_ignored :
  Player.main (FL := Float64.binary64) 1920 1080 [Logs.pixel_header; Logs.pixel_row]
  = Player.Finished [Player.Move 192000 216000]
  /\ Player.main (FL := Float64.binary64) 1920 1080 [Recorder.header; Logs.pixel_row]
     = Player.Finished [Player.Move 192000 216000]
  /\ Logs.pixel_header <> Recorder.header.
Proof. split; [|split]; [vm_compute; reflexivity | vm_compute; reflexivity | discriminate]. Qed.

(** ** Strings *)

Lemma string_app_assoc (a b c : string) : ((a ++ b) ++ c = a ++ (b ++ c))%string.
Proof. induction a as [|x a IH]; cbn; [reflexivity|now rewrite IH]. Qed.

Lemma string_app_nil_r (a : string) : (a ++ EmptyString = a)%string.
Proof. induction a as [|x a IH]; cbn; [reflexivity|now rewrite IH]. Qed.

Lemma string_length_app (a b : string) :
  String.length (a ++ b) = (String.length a + String.length b)%nat.
Proof. induction a as [|x a IH]; cbn; [reflexivity|now rewrite IH]. Qed.

(** ** The buffered writer *)

(** Nothing is lost and nothing is reordered: the file followed by the
    buffer is what has been written. *)
Lemma WriteString_bytes s : forall w,
  (Writer.file (Writer.WriteString w s) ++ Writer.pending (Writer.WriteString w s)
   = (Writer.file w ++ Writer.pending w) ++ s)%string.
Proof.
  induction s as [|c s IH]; intros w; cbn [Writer.WriteString].
  - now rewrite string_app_nil_r.
  - rewrite IH. unfold Writer.WriteByte.
    destruct (Nat.leb Writer.defaultBufSize (String.length (Writer.pending w)));
      cbn [Writer.file Writer.pending];
      rewrite !string_app_assoc; reflexivity.
Qed.

(** While the buffer has room the file is not touched. *)
Lemma WriteString_buffered s : forall w,
  (String.length (Writer.pending w) + String.length s <= Writer.defaultBufSize)%nat ->
  Writer.WriteString w s = Writer.mk (Writer.file w) (Writer.pending w ++ s).
Proof.
  induction s as [|c s IH]; intros w Hroom; cbn [Writer.WriteString].
  - rewrite string_app_nil_r. destruct w; reflexivity.
  - cbn [String.length] in Hroom. unfold Writer.WriteByte.
    destruct (Nat.leb_spec Writer.defaultBufSize (String.length (Writer.pending w))) as [Hfull|_];
      [lia|].
    rewrite IH; cbn [Writer.file Writer.pending].
    + rewrite string_app_assoc. reflexivity.
    + rewrite string_length_app. cbn [String.length]. lia.
Qed.

(** ** The Recorder's tick handler *)

Section RecorderFacts.

Context {FL : FloatLib}.
Variable g : Recorder.geometry.

Lemma on_tick_shape t :
  exists rest,
    Recorder.on_tick g t = Recorder.CsvWrite (Recorder.sample g t) :: Recorder.CaptureRect :: rest
    /\ Recorder.rows rest = []
    /\ (forall w, fold_left Recorder.step rest w = w).
Proof.
  unfold Recorder.on_tick, Recorder.sample.
  destruct (Recorder.mouse t) as [mx my].
  destruct (Recorder.capture_ok t), (Recorder.encode_ok t), (Recorder.debug_ok t);
    cbn [negb]; eexists; (split; [reflexivity|split; [reflexivity|intros w; reflexivity]]).
Qed.

Lemma rows_on_tick t : Recorder.rows (Recorder.on_tick g t) = [Recorder.sample g t].
Proof.
  destruct (on_tick_shape t) as (rest & -> & Hrows & _).
  change (Recorder.sample g t :: Recorder.rows rest = [Recorder.sample g t]).
  now rewrite Hrows.
Qed.

Lemma rows_app a b : Recorder.rows (a ++ b) = Recorder.rows a ++ Recorder.rows b.
Proof. unfold Recorder.rows. apply flat_map_app. Qed.

Lemma rows_ticks ticks :
  Recorder.rows (flat_map (Recorder.on_tick g) ticks) = map (Recorder.sample g) ticks.
Proof.
  induction ticks as [|t ticks IH]; [reflexivity|].
  cbn [flat_map map]. rewrite rows_app, rows_on_tick, IH. reflexivity.
Qed.

Lemma rows_recording ticks :
  Recorder.rows (Recorder.recording g ticks) = Recorder.header :: map (Recorder.sample g) ticks.
Proof. unfold Recorder.recording. cbn. f_equal. apply rows_ticks. Qed.

Lemma rows_main ticks :
  Recorder.rows (Recorder.main g ticks) = Recorder.header :: map (Recorder.sample g) ticks.
Proof.
  unfold Recorder.main. rewrite rows_app, rows_recording. cbn. now rewrite app_nil_r.
Qed.

(** The writer sees the rows and nothing else of a trace without [Flush]. *)
Lemma writer_on_tick t w :
  fold_left Recorder.step (Recorder.on_tick g t) w = Writer.Write w (Recorder.sample g t).
Proof.
  destruct (on_tick_shape t) as (rest & -> & _ & Hw).
  cbn [fold_left Recorder.step]. apply Hw.
Qed.

Lemma writer_ticks ticks : forall w,
  fold_left Recorder.step (flat_map (Recorder.on_tick g) ticks) w =
  fold_left Writer.Write (map (Recorder.sample g) ticks) w.
Proof.
  induction ticks as [|t ticks IH]; intros w; [reflexivity|].
  cbn [flat_map map fold_left]. rewrite fold_left_app, writer_on_tick. apply IH.
Qed.

Lemma exec_recording ticks :
  Recorder.exec (Recorder.recording g ticks) =
  fold_left Writer.Write (Recorder.header :: map (Recorder.sample g) ticks) Writer.empty.
Proof.
  unfold Recorder.exec, Recorder.recording. cbn [fold_left Recorder.step].
  apply writer_ticks.
Qed.

Lemma exec_main ticks :
  Recorder.exec (Recorder.main g ticks) = Writer.Flush (Recorder.exec (Recorder.recording g ticks)).
Proof.
  unfold Recorder.exec, Recorder.main. rewrite fold_left_app. reflexivity.
Qed.

Lemma on_tick_same_but_estimator a b :
  Recorder.same_but_estimator a b ->
  Recorder.sample g a = Recorder.sample g b
  /\ Recorder.handler_time g a = Recorder.handler_time g b.
Proof.
  intros (Ht & Hm & Hc & He & Hd & Hcn & Hen & Hdn).
  unfold Recorder.handler_time, Recorder.on_tick, Recorder.sample.
  rewrite Ht, Hm, Hc, He, Hd. destruct (Recorder.mouse b) as [mx my].
  split; [reflexivity|].
  destruct (Recorder.capture_ok b), (Recorder.encode_ok b), (Recorder.debug_ok b);
    cbn; rewrite ?Hcn, ?Hen, ?Hdn; reflexivity.
Qed.

End RecorderFacts.

Lemma Write_all_bytes rs : forall w,
  let w' := fold_left Writer.Write rs w in
  (Writer.file w' ++ Writer.pending w'
   = (Writer.file w ++ Writer.pending w) ++ Writer.encode_all rs)%string.
Proof.
  induction rs as [|r rs IH]; intros w; cbn [fold_left Writer.encode_all fold_right].
  - now rewrite string_app_nil_r.
  - cbn zeta in IH. rewrite IH. unfold Writer.Write. rewrite WriteString_bytes.
    now rewrite string_app_assoc.
Qed.

Lemma Write_all_buffered rs : forall w,
  (String.length (Writer.pending w) + String.length (Writer.encode_all rs)
   <= Writer.defaultBufSize)%nat ->
  Writer.file (fold_left Writer.Write rs w) = Writer.file w.
Proof.
  induction rs as [|r rs IH]; intros w Hroom; [reflexivity|].
  cbn [fold_left]. change (Writer.encode_all (r :: rs))
    with (Writer.encode r ++ Writer.encode_all rs)%string in Hroom.
  rewrite string_length_app in Hroom.
  unfold Writer.Write at 2.
  rewrite WriteString_buffered by (revert Hroom; generalize Writer.defaultBufSize; intros; lia).
  rewrite IH; cbn [Writer.file Writer.pending]; [reflexivity|].
  rewrite string_length_app. revert Hroom; generalize Writer.defaultBufSize; intros; lia.
Qed.

(** ** Rows and header *)

Lemma to_digits_head fuel : forall n,
  0 <= n -> exists d ds, Digits.to_digits fuel n = d :: ds /\ 0 <= d <= 9.
Proof.
  induction fuel as [|f IH]; intros n Hn; cbn [Digits.to_digits].
  - exists (n mod 10), []. split; [reflexivity|].
    pose proof (Z.mod_pos_bound n 10 ltac:(lia)). lia.
  - destruct (Z.ltb_spec n 10) as [Hlt|Hge].
    + exists n, []. split; [reflexivity|lia].
    + destruct (IH (n / 10)) as (d & ds & E & Hd); [apply Z.div_pos; lia|].
      rewrite E. exists d, (ds ++ [n mod 10]). split; [reflexivity|exact Hd].
Qed.

Lemma FormatInt_not_timestamp v : Strconv.FormatInt v <> "timestamp"%string.
Proof.
  unfold Strconv.FormatInt. destruct (Z.ltb_spec v 0) as [Hneg|Hpos]; [discriminate|].
  unfold Digits.print_nat, Digits.string_of_digits.
  destruct (to_digits_head (Z.to_nat (Z.log2 v)) v Hpos) as (d & ds & -> & Hd).
  cbn [map string_of_list_ascii]. intros [= Hc _].
  assert (Hcases : d = 0 \/ d = 1 \/ d = 2 \/ d = 3 \/ d = 4 \/ d = 5 \/ d = 6
                   \/ d = 7 \/ d = 8 \/ d = 9) by lia.
  repeat (destruct Hcases as [-> | Hcases]; [discriminate Hc|]).
  subst d. discriminate Hc.
Qed.

Lemma samples_are_not_header {FL : FloatLib} (g : Recorder.geometry) ticks :
  Forall (fun r => r <> Recorder.header) (map (Recorder.sample g) ticks).
Proof.
  apply Forall_forall. intros r Hr. apply in_map_iff in Hr as (t & <- & _).
  unfold Recorder.sample, Recorder.header. destruct (Recorder.mouse t).
  intros [= Hts _]. exact (FormatInt_not_timestamp _ Hts).
Qed.

(** C8, amended.  The Recorder writes its header once, as the first row,
    and the header names the normalised columns; every later row is a
    sample.  The Player does not read the header: it drops the first
    record whatever its fields say (only its field count matters, to the
    CSV reader) and always takes the body for unit-normalised positions. *)
Theorem header_written_once_not_read {FL : FloatLib} (g : Recorder.geometry)
    (ticks : list Recorder.tick) (W H : Z) (h : Csv.record) (body : list Csv.record) :
  List.length h = List.length Recorder.header ->
  Recorder.rows (Recorder.main g ticks) = Recorder.header :: map (Recorder.sample g) ticks
  /\ Forall (fun r => r <> Recorder.header) (map (Recorder.sample g) ticks)
  /\ Recorder.header = ["timestamp"; "norm_x"; "norm_y"]%string
  /\ Player.main W H (h :: body) = Player.main W H (Recorder.header :: body).
Proof.
  intros Hlen. split; [apply rows_main|].
  split; [apply samples_are_not_header|].
  split; [reflexivity|].
  apply header_is_not_read. exact Hlen.
Qed.

Lemma header_written_once_not_read_witness :
  Recorder.rows (Recorder.main (FL := Float64.binary64) Logs.full_hd
                   [Logs.tick_at 1000 960 540 Recorder.TimedOut 0])
  = [Recorder.header; ["1000"; "0.50000000"; "0.50000000"]%string]
  /\ Player.main (FL := Float64.binary64) 1920 1080 [Logs.pixel_header; Logs.pixel_row]
     = Player.main (FL := Float64.binary64) 1920 1080 [Recorder.header; Logs.pixel_row].
Proof.
  destruct (header_written_once_not_read (FL := Float64.binary64) Logs.full_hd
              [Logs.tick_at 1000 960 540 Recorder.TimedOut 0] 1920 1080
              Logs.pixel_header [Logs.pixel_row] eq_refl)
    as (Hrows & _ & _ & Hplay).
  split; [|exact Hplay].
  rewrite Hrows. vm_compute. reflexivity.
Defined.


(** In [src/recorder/main.go] the estimator cannot disturb the recording.
    Two runs whose ticks differ at most in what the estimator does and
    in how long it takes hand the same rows to the writer (same count,
    same offsets, same values), leave the same bytes in the file, and
    keep the tick loop busy for the same time on every tick; the rows
    are the header and one sample per tick, and the estimator's goroutine
    writes none. *)
Lemma estimator_cannot_disturb_recording {FL : FloatLib} (g : Recorder.geometry)
    (run1 run2 : list Recorder.tick) :
  Forall2 Recorder.same_but_estimator run1 run2 ->
  Recorder.rows (Recorder.main g run1) = Recorder.rows (Recorder.main g run2)
  /\ Recorder.exec (Recorder.main g run1) = Recorder.exec (Recorder.main g run2)
  /\ map (Recorder.handler_time g) run1 = map (Recorder.handler_time g) run2
  /\ Recorder.rows (Recorder.main g run1) = Recorder.header :: map (Recorder.sample g) run1
  /\ Forall (fun t => Recorder.rows (Recorder.goroutine (Recorder.estimator t)) = []) run1.
Proof.
  intros Hsame.
  assert (Hs : map (Recorder.sample g) run1 = map (Recorder.sample g) run2
               /\ map (Recorder.handler_time g) run1 = map (Recorder.handler_time g) run2).
  { induction Hsame as [|a b l1 l2 Hab _ [IH1 IH2]]; [split; reflexivity|].
    destruct (on_tick_same_but_estimator g a b Hab) as [E1 E2].
    cbn [map]. rewrite E1, E2, IH1, IH2. split; reflexivity. }
  destruct Hs as [Hsamples Htimes].
  split; [now rewrite !rows_main, Hsamples|].
  split; [now rewrite !exec_main, !exec_recording, Hsamples|].
  split; [exact Htimes|].
  split; [apply rows_main|].
  apply Forall_forall. intros t _. destruct (Recorder.estimator t); reflexivity.
Qed.

Example estimator_cannot_disturb_recording_at_two_ticks :
  let answered := [Logs.tick_at 1000 960 540 (Recorder.Answer "961,541") 400000000;
                   Logs.tick_at 2000 480 270 (Recorder.Answer "480,270") 400000000] in
  let timed_out := [Logs.tick_at 1000 960 540 Recorder.TimedOut 9000000000;
                    Logs.tick_at 2000 480 270 Recorder.TimedOut 8000000000] in
  Recorder.rows (Recorder.main (FL := Float64.binary64) Logs.full_hd answered)
  = Recorder.rows (Recorder.main (FL := Float64.binary64) Logs.full_hd timed_out)
  /\ map (Recorder.handler_time (FL := Float64.binary64) Logs.full_hd) answered
     = map (Recorder.handler_time (FL := Float64.binary64) Logs.full_hd) timed_out.
Proof.
  intros answered timed_out.
  destruct (estimator_cannot_disturb_recording (FL := Float64.binary64) Logs.full_hd
              answered timed_out
              ltac:(repeat constructor))
    as (Hrows & _ & Htime & _).
  split; [exact Hrows|exact Htime].
Defined.

(** The cross-checking recorder writes the same row first, too, but then
    stays in the handler until the estimator has returned. *)
Lemma rows_on_tick_crosscheck {FL : FloatLib} (g : Recorder.geometry) (t : Recorder.tick) :
  Recorder.rows (Recorder.on_tick_crosscheck g t) = [Recorder.sample g t].
Proof.
  unfold Recorder.on_tick_crosscheck, Recorder.sample.
  destruct (Recorder.mouse t) as [mx my].
  destruct (Recorder.capture_ok t), (Recorder.encode_ok t), (Recorder.debug_ok t),
    (Recorder.estimator t); reflexivity.
Qed.

Lemma handler_time_crosscheck_waits {FL : FloatLib} (g : Recorder.geometry)
    (t : Recorder.tick) :
  Recorder.capture_ok t = true -> Recorder.encode_ok t = true ->
  Recorder.handler_time_crosscheck g t =
  Recorder.capture_ns t + Recorder.encode_ns t + Recorder.debug_ns t
  + Recorder.estimator_ns t.
Proof.
  intros Hc He. unfold Recorder.handler_time_crosscheck, Recorder.on_tick_crosscheck.
  rewrite Hc, He. destruct (Recorder.mouse t) as [mx my].
  destruct (Recorder.debug_ok t), (Recorder.estimator t); cbn; lia.
Qed.

(** C3.  An estimator that times out should not delay the next tick.  In
    the cross-checking recorder it does: the same tick keeps the loop
    busy for 0.515 s when the estimator answers after 0.4 s and for
    9.115 s, nine periods of the ticker, when it times out after 9 s.
    ([src/recorder/main.go] starts the call in a goroutine and is not
    affected: [estimator_cannot_disturb_recording].) *)
Theorem crosscheck_waits_for_estimator :
  let answered := Logs.tick_at 1000 960 540 (Recorder.Answer "960,540") 400000000 in
  let timed_out := Logs.tick_at 1000 960 540 Recorder.TimedOut 9000000000 in
  Recorder.same_but_estimator answered timed_out
  /\ Recorder.handler_time_crosscheck (FL := Float64.binary64) Logs.full_hd answered
     = 515000000
  /\ Recorder.handler_time_crosscheck (FL := Float64.binary64) Logs.full_hd timed_out
     = 9115000000
  /\ 9 * Recorder.period < 9115000000
  /\ Recorder.handler_time (FL := Float64.binary64) Logs.full_hd timed_out
     = Recorder.handler_time (FL := Float64.binary64) Logs.full_hd answered.
Proof. vm_compute. repeat split. Qed.

(** ** What is in the file, and when *)

(** C2, as stated, at a run of one tick: after the header and the first
    sample have been appended the file is still empty; both rows sit in
    the writer's buffer, and a process killed now leaves nothing. *)
Lemma first_sample_not_in_file :
  let w := Recorder.exec (Recorder.recording (FL := Float64.binary64) Logs.full_hd
                            [Logs.tick_at 1000 960 540 Recorder.TimedOut 0]) in
  Writer.file w = EmptyString
  /\ Writer.pending w =
     Writer.encode_all [Recorder.header; ["1000"; "0.50000000"; "0.50000000"]%string]
  /\ String.length (Writer.pending w) = 51%nat.
Proof. vm_compute. repeat split. Qed.

(** C2, amended.  Appends go to the writer's 4096-byte buffer.  At every
    point of a run the file followed by the buffer holds the header and
    the samples appended so far, in order; the file stays empty unless
    more than 4096 bytes have been appended; and the deferred [Flush] of
    a run that ends normally leaves every row in the file. *)
Theorem appends_are_buffered {FL : FloatLib} (g : Recorder.geometry)
    (ticks : list Recorder.tick) :
  let appended := Writer.encode_all (Recorder.header :: map (Recorder.sample g) ticks) in
  let running := Recorder.exec (Recorder.recording g ticks) in
  let ended := Recorder.exec (Recorder.main g ticks) in
  (Writer.file running ++ Writer.pending running)%string = appended
  /\ (Writer.file running = EmptyString
      \/ (Writer.defaultBufSize < String.length appended)%nat)
  /\ Writer.file ended = appended
  /\ Writer.pending ended = EmptyString.
Proof.
  intros appended running ended.
  assert (Hall : (Writer.file running ++ Writer.pending running)%string = appended).
  { unfold running. rewrite exec_recording.
    pose proof (Write_all_bytes (Recorder.header :: map (Recorder.sample g) ticks)
                  Writer.empty) as Hb.
    cbn zeta in Hb. rewrite Hb. reflexivity. }
  split; [exact Hall|]. split.
  - destruct (Nat.leb_spec (String.length appended) Writer.defaultBufSize) as [Hfit|Hbig].
    + left. unfold running. rewrite exec_recording.
      rewrite Write_all_buffered; [reflexivity|exact Hfit].
    + right. exact Hbig.
  - unfold ended. rewrite exec_main. fold running. cbn [Writer.Flush Writer.file Writer.pending].
    split; [exact Hall|reflexivity].
Qed.

(** ** Rounding to binary64

    The standard model of a rounded operation: the result differs from
    the exact one by at most the unit roundoff times its magnitude, plus
    half a subnormal step. *)

Module Rounding.

Import Float64.
Local Open Scope Q_scope.

(** Rounding to an integer moves a value by at most one half. *)
Lemma rne_error q : Qabs (inject_Z (rne q) - q) <= 1 # 2.
Proof.
  unfold rne.
  pose proof (Qfloor_le q) as Hlo. pose proof (Qlt_floor q) as Hhi.
  rewrite inject_Z_plus in Hhi. change (inject_Z 1) with 1 in Hhi.
  apply Qabs_Qle_condition.
  destruct (Qcompare_spec (q - inject_Z (Qfloor q)) (1 # 2)) as [E|L|G];
    [destruct (Z.even (Qfloor q))| |];
    rewrite ?inject_Z_plus; change (inject_Z 1) with 1;
    generalize dependent (inject_Z (Qfloor q)); intros; lra.
Qed.

Lemma rne_Z z : rne (inject_Z z) = z.
Proof.
  unfold rne. rewrite Qfloor_Z.
  destruct (Qcompare_spec (inject_Z z - inject_Z z) (1 # 2)) as [E|L|G]; [lra|reflexivity|lra].
Qed.

Lemma rne_nonneg q : 0 <= q -> (0 <= rne q)%Z.
Proof.
  intros Hq. unfold rne.
  assert (0 <= Qfloor q)%Z.
  { change 0%Z with (Qfloor 0). apply Qfloor_resp_le. exact Hq. }
  destruct (Qcompare _ _); [destruct (Z.even _)| |]; lia.
Qed.

Lemma pow2_pos e : 0 < pow2 e.
Proof. unfold pow2. apply Qpower_0_lt. reflexivity. Qed.

Lemma pow2_add a b : pow2 (a + b) == pow2 a * pow2 b.
Proof. unfold pow2. apply Qpower_plus. discriminate. Qed.

Lemma pow2_Z e : (0 <= e)%Z -> pow2 e == inject_Z (2 ^ e).
Proof. intros He. unfold pow2. rewrite Zpower_Qpower by exact He. reflexivity. Qed.

Lemma pow2_le a b : (a <= b)%Z -> pow2 a <= pow2 b.
Proof. intros Hab. unfold pow2. apply Qpower_le_compat_l; [exact Hab|]. discriminate. Qed.

Lemma pow2_lt_inv a b : pow2 a < pow2 b -> (a < b)%Z.
Proof.
  intros Hlt. destruct (Z.lt_ge_cases a b) as [H|H]; [exact H|].
  apply pow2_le in H. lra.
Qed.

(** [ilog2 q] is the binary exponent of [q]:
    [2 ^ ilog2 q <= q < 2 ^ (ilog2 q + 1)]. *)
Lemma ilog2_le q : 0 < q -> pow2 (ilog2 q) <= q.
Proof.
  intros Hq. unfold ilog2.
  destruct (Qle_bool (pow2 (Z.log2 (Qnum q) - Z.log2 (Z.pos (Qden q))))%Z q) eqn:Hb.
  - apply Qle_bool_iff. exact Hb.
  - clear Hb. destruct q as [n d]. cbn [Qnum Qden].
    assert (Hn : (0 < n)%Z) by (unfold Qlt in Hq; cbn in Hq; lia).
    set (ln := Z.log2 n). set (ld := Z.log2 (Z.pos d)).
    assert (Hln : (0 <= ln)%Z) by apply Z.log2_nonneg.
    assert (Hld : (0 <= ld)%Z) by apply Z.log2_nonneg.
    replace (ln - ld - 1)%Z with (ln + - (ld + 1))%Z by lia.
    rewrite pow2_add. unfold pow2 at 2. rewrite Qpower_opp.
    fold (pow2 (ld + 1)). rewrite !pow2_Z by lia.
    destruct (Z.log2_spec n Hn) as [Hn1 _]. fold ln in Hn1.
    destruct (Z.log2_spec (Z.pos d) ltac:(lia)) as [_ Hd2]. fold ld in Hd2.
    replace (Z.succ ld) with (ld + 1)%Z in Hd2 by lia.
    assert (HB : (0 < 2 ^ (ld + 1))%Z) by (apply Z.pow_pos_nonneg; lia).
    apply Qle_shift_div_r; [change 0 with (inject_Z 0); rewrite <- Zlt_Qlt; exact HB|].
    unfold Qle, Qmult, inject_Z. cbn [Qnum Qden]. nia.
Qed.

Lemma ilog2_lt q : 0 < q -> q < pow2 (ilog2 q + 1).
Proof.
  intros Hq. unfold ilog2.
  destruct (Qle_bool (pow2 (Z.log2 (Qnum q) - Z.log2 (Z.pos (Qden q))))%Z q) eqn:Hb.
  - clear Hb. destruct q as [n d]. cbn [Qnum Qden].
    assert (Hn : (0 < n)%Z) by (unfold Qlt in Hq; cbn in Hq; lia).
    set (ln := Z.log2 n). set (ld := Z.log2 (Z.pos d)).
    assert (Hln : (0 <= ln)%Z) by apply Z.log2_nonneg.
    assert (Hld : (0 <= ld)%Z) by apply Z.log2_nonneg.
    replace (ln - ld + 1)%Z with ((ln + 1) + - ld)%Z by lia.
    rewrite pow2_add. unfold pow2 at 2. rewrite Qpower_opp.
    fold (pow2 ld). rewrite !pow2_Z by lia.
    destruct (Z.log2_spec n Hn) as [_ Hn2]. fold ln in Hn2.
    destruct (Z.log2_spec (Z.pos d) ltac:(lia)) as [Hd1 _]. fold ld in Hd1.
    replace (Z.succ ln) with (ln + 1)%Z in Hn2 by lia.
    assert (HB : (0 < 2 ^ ld)%Z) by (apply Z.pow_pos_nonneg; lia).
    apply Qlt_shift_div_l; [change 0 with (inject_Z 0); rewrite <- Zlt_Qlt; exact HB|].
    unfold Qlt, Qmult, inject_Z. cbn [Qnum Qden]. nia.
  - replace (Z.log2 (Qnum q) - Z.log2 (Z.pos (Qden q)) - 1 + 1)%Z
      with (Z.log2 (Qnum q) - Z.log2 (Z.pos (Qden q)))%Z by lia.
    apply Qnot_le_lt. intros Hle. apply Qle_bool_iff in Hle. congruence.
Qed.

(** Half a unit in the last place of [a] is at most [a * u + eta]. *)
Lemma ulp_exp_bound a : 0 < a -> pow2 (ulp_exp a) * (1 # 2) <= a * u + eta.
Proof.
  intros Ha. pose proof (ilog2_le a Ha) as Hlo.
  pose proof (pow2_pos (-53)) as Hu. pose proof (pow2_pos (-1075)) as He.
  unfold ulp_exp, u, eta.
  destruct (Z.max_spec (ilog2 a - 52) (-1074)) as [[_ ->]|[_ ->]].
  - assert (E : pow2 (-1074) * (1 # 2) == pow2 (-1075)) by reflexivity.
    rewrite E. pose proof (Qmult_lt_0_compat _ _ Ha Hu). lra.
  - replace (ilog2 a - 52)%Z with (ilog2 a + -52)%Z by lia.
    rewrite pow2_add.
    assert (E : pow2 (-52) * (1 # 2) == pow2 (-53)) by reflexivity.
    rewrite <- Qmult_assoc, E.
    pose proof (Qmult_le_compat_r _ _ (pow2 (-53)) Hlo (Qlt_le_weak _ _ Hu)). lra.
Qed.

(** Rounding moves a value by at most half a unit in its last place. *)
Lemma round_pos_half_ulp a :
  0 < a -> Qabs (round_pos a - a) <= pow2 (ulp_exp a) * (1 # 2).
Proof.
  intros Ha. unfold round_pos.
  set (P := pow2 (ulp_exp a)) in *.
  assert (HP : 0 < P) by apply pow2_pos.
  assert (E : a == (a / P) * P) by (field; lra).
  set (x := a / P) in *. clearbody x.
  pose proof (rne_error x) as Hr.
  set (m := inject_Z (rne x)) in *. clearbody m.
  apply Qabs_Qle_condition in Hr. destruct Hr as [Hr1 Hr2].
  apply Qabs_Qle_condition.
  pose proof (Qmult_le_compat_r _ _ P Hr1 (Qlt_le_weak _ _ HP)) as H1.
  pose proof (Qmult_le_compat_r _ _ P Hr2 (Qlt_le_weak _ _ HP)) as H2.
  assert (E1 : (m - x) * P == m * P - a) by (rewrite E; ring).
  rewrite E1 in H1, H2. clearbody P. lra.
Qed.

Lemma round_pos_error a : 0 < a -> Qabs (round_pos a - a) <= a * u + eta.
Proof.
  intros Ha. eapply Qle_trans; [apply round_pos_half_ulp; exact Ha|].
  apply ulp_exp_bound. exact Ha.
Qed.

Lemma rne_le_succ_floor q : (Qfloor q <= rne q <= Qfloor q + 1)%Z.
Proof.
  unfold rne. destruct (Qcompare _ _); [destruct (Z.even _)| |]; lia.
Qed.

(** The result of rounding is a binary64 number: a significand of at
    most 53 bits times a power of two not below the subnormal step, and
    it is within half that step of the exact value. *)
Lemma round_pos_binary64 a :
  0 < a ->
  exists m e,
    round_pos a = inject_Z m * pow2 e
    /\ (0 <= m <= 2 ^ 53)%Z /\ (-1074 <= e)%Z
    /\ Qabs (round_pos a - a) <= pow2 e * (1 # 2).
Proof.
  intros Ha. exists (rne (a / pow2 (ulp_exp a))), (ulp_exp a).
  pose proof (pow2_pos (ulp_exp a)) as HP.
  assert (Hx0 : 0 <= a / pow2 (ulp_exp a)).
  { apply Qle_shift_div_l; [exact HP|]. lra. }
  assert (Hx1 : a / pow2 (ulp_exp a) < inject_Z (2 ^ 53)).
  { apply Qlt_shift_div_r; [exact HP|].
    eapply Qlt_le_trans; [apply (ilog2_lt a Ha)|].
    rewrite <- (pow2_Z 53) by lia. rewrite <- pow2_add.
    apply pow2_le. unfold ulp_exp. lia. }
  split; [reflexivity|]. split; [|split].
  - pose proof (rne_le_succ_floor (a / pow2 (ulp_exp a))) as [Hlo Hhi].
    pose proof (rne_nonneg _ Hx0).
    assert (Qfloor (a / pow2 (ulp_exp a)) < 2 ^ 53)%Z.
    { rewrite Zlt_Qlt. eapply Qle_lt_trans; [apply Qfloor_le|exact Hx1]. }
    lia.
  - unfold ulp_exp. lia.
  - apply round_pos_half_ulp. exact Ha.
Qed.

Lemma round_pos_nonneg a : 0 < a -> 0 <= round_pos a.
Proof.
  intros Ha. unfold round_pos. apply Qmult_le_0_compat.
  - change 0 with (inject_Z 0). rewrite <- Zle_Qle. apply rne_nonneg.
    apply Qle_shift_div_l; [apply pow2_pos|]. lra.
  - apply Qlt_le_weak, pow2_pos.
Qed.

(** The error of one rounding. *)
Lemma RN_error q : 0 <= q -> Qabs (RN q - q) <= q * u + eta.
Proof.
  intros Hq. unfold RN. rewrite Qred_correct.
  destruct (Qcompare_spec q 0) as [E|L|G].
  - rewrite E. pose proof (pow2_pos (-1075)). unfold eta. 
    apply Qabs_Qle_condition. lra.
  - lra.
  - apply round_pos_error. exact G.
Qed.

Lemma RN_nonneg q : 0 <= q -> 0 <= RN q.
Proof.
  intros Hq. unfold RN. rewrite Qred_correct.
  destruct (Qcompare_spec q 0) as [E|L|G]; [lra|lra|].
  apply round_pos_nonneg. exact G.
Qed.

(** [rne] depends on the value of a fraction only. *)
Lemma rne_comp x y : x == y -> rne x = rne y.
Proof.
  intros E. unfold rne. rewrite (Qfloor_comp x y E).
  assert (E' : x - inject_Z (Qfloor y) == y - inject_Z (Qfloor y)) by (rewrite E; reflexivity).
  rewrite (Qcompare_comp _ _ E' (1 # 2) (1 # 2) (Qeq_refl _)). reflexivity.
Qed.

Lemma Qred_inject_Z n : Qred (inject_Z n) = inject_Z n.
Proof. apply Qcanon.Qred_identity. cbn. apply Z.gcd_1_r. Qed.

(** Integers below [2^53] are binary64 numbers: rounding keeps them. *)
Lemma RN_int n : (0 <= n < 2 ^ 53)%Z -> RN (inject_Z n) = inject_Z n.
Proof.
  intros [Hn0 Hn1]. rewrite <- (Qred_inject_Z n) at 2. unfold RN. apply Qred_complete.
  destruct (Qcompare_spec (inject_Z n) 0) as [E|L|G].
  - rewrite E. reflexivity.
  - exfalso. change 0 with (inject_Z 0) in L. rewrite <- Zlt_Qlt in L. lia.
  - unfold round_pos. set (e := ulp_exp (inject_Z n)).
    assert (He : (e <= 0)%Z).
    { unfold e, ulp_exp. pose proof (ilog2_le _ G) as Hlo.
      assert (Hlt : pow2 (ilog2 (inject_Z n)) < pow2 53).
      { eapply Qle_lt_trans; [exact Hlo|]. rewrite (pow2_Z 53) by lia.
        rewrite <- Zlt_Qlt. exact Hn1. }
      apply pow2_lt_inv in Hlt. lia. }
    assert (Hone : pow2 (- e) * pow2 e == 1).
    { rewrite <- pow2_add. replace (- e + e)%Z with 0%Z by lia. reflexivity. }
    assert (Hinv : / pow2 e == pow2 (- e)).
    { unfold pow2. rewrite Qpower_opp. reflexivity. }
    assert (Hx : inject_Z n / pow2 e == inject_Z (n * 2 ^ (- e))).
    { unfold Qdiv. rewrite Hinv, inject_Z_mult, <- pow2_Z by lia. reflexivity. }
    rewrite (rne_comp _ _ Hx), rne_Z.
    rewrite inject_Z_mult, <- pow2_Z by lia.
    rewrite <- Qmult_assoc, Hone. ring.
Qed.

Lemma to_int_floor c : 0 <= c -> to_int c = Qfloor c.
Proof.
  intros Hc. destruct c as [n d]. unfold to_int, Qfloor. cbn [Qnum Qden].
  apply Z.quot_div_nonneg; [|lia]. unfold Qle in Hc. cbn in Hc. lia.
Qed.

(** Truncating a value that lies strictly within one unit of an integer
    [T] gives [T] or [T - 1]. *)
Lemma to_int_near c T :
  0 <= c -> inject_Z T - 1 < c -> c < inject_Z T + 1 ->
  (T - 1 <= to_int c <= T)%Z.
Proof.
  intros Hc Hlo Hhi. rewrite to_int_floor by exact Hc.
  pose proof (Qfloor_le c) as Hf1. pose proof (Qlt_floor c) as Hf2.
  rewrite inject_Z_plus in Hf2. change (inject_Z 1) with 1 in Hf2.
  assert (H1 : inject_Z (Qfloor c) < inject_Z (T + 1)).
  { rewrite inject_Z_plus. change (inject_Z 1) with 1.
    generalize dependent (inject_Z (Qfloor c)). intros. generalize dependent (inject_Z T). intros. lra. }
  assert (H2 : inject_Z (T - 2) < inject_Z (Qfloor c)).
  { unfold Z.sub. rewrite inject_Z_plus. change (inject_Z (- (2))) with (- (2)).
    generalize dependent (inject_Z (Qfloor c)). intros. generalize dependent (inject_Z T). intros. lra. }
  rewrite <- Zlt_Qlt in H1, H2. lia.
Qed.

(** The error of one rounding, with numerals for [u] and [eta]. *)
Lemma RN_close q :
  0 <= q ->
  Qabs (RN q - q) <= q * (1 # 9007199254740992) + (1 # 100000000000000000000).
Proof.
  intros Hq. pose proof (RN_error q Hq) as H.
  assert (Eu : u == 1 # 9007199254740992) by reflexivity.
  assert (Ee : eta <= 1 # 100000000000000000000).
  { apply Qle_bool_iff. vm_compute. reflexivity. }
  rewrite Eu in H. lra.
Qed.

End Rounding.

(** The model computes what the processor computes, on quotients and
    products of the kind the two programs form. *)
Example quotients_as_in_hardware :
  map (fun p => Some (Float64.fdiv (Float64.of_int (fst p)) (Float64.of_int (snd p))))
      [(1, 3); (1, 1920); (1919, 1920); (1, 1080); (539, 1080); (7, 10);
       (4, 1000000000); (123456, 99999999); (0, 5)]
  = map (fun p => Hardware.quotient (fst p) (snd p))
      [(1, 3); (1, 1920); (1919, 1920); (1, 1080); (539, 1080); (7, 10);
       (4, 1000000000); (123456, 99999999); (0, 5)].
Proof. vm_compute. reflexivity. Qed.

Example products_as_in_hardware :
  map (fun p => Some (Float64.fmul
                        (Float64.fdiv (Float64.of_int (fst p)) (Float64.of_int 100000000))
                        (Float64.of_int (snd p))))
      [(52083, 3840); (92593, 2160); (99947917, 1920); (70000000, 1920); (30000000, 10)]
  = map (fun p => Hardware.scaled (fst p) 100000000 (snd p))
      [(52083, 3840); (92593, 2160); (99947917, 1920); (70000000, 1920); (30000000, 10)].
Proof. vm_compute. reflexivity. Qed.

(** ** Decimal numerals, written and read back *)

(** The ten digits, one by one. *)
Lemma digit_cases d : Digits.is_digit d ->
  d = 0 \/ d = 1 \/ d = 2 \/ d = 3 \/ d = 4 \/ d = 5 \/ d = 6 \/ d = 7 \/ d = 8 \/ d = 9.
Proof. unfold Digits.is_digit. lia. Qed.

Ltac each_digit d H :=
  let C := fresh "C" in
  pose proof (digit_cases d H) as C;
  repeat (destruct C as [-> | C]; [|]); [..|subst d].

Lemma digit_of_ascii_of_digit d :
  Digits.is_digit d -> Digits.digit_of_ascii (Digits.ascii_of_digit d) = Some d.
Proof. intros H. each_digit d H; reflexivity. Qed.

Lemma ascii_of_digit_plain d :
  Digits.is_digit d ->
  Digits.ascii_of_digit d <> "+"%char /\ Digits.ascii_of_digit d <> "-"%char
  /\ Ascii.eqb (Digits.ascii_of_digit d) "."%char = false.
Proof. intros H. each_digit d H; repeat split; discriminate. Qed.

(** Reading back the characters of a list of digits. *)
Lemma parse_acc_digits ds : forall rest acc,
  Forall Digits.is_digit ds ->
  Digits.parse_acc (Digits.string_of_digits ds ++ rest) acc =
  Digits.parse_acc rest (fold_left Digits.step ds acc).
Proof.
  induction ds as [|d ds IH]; intros rest acc Hds; [reflexivity|].
  inversion Hds as [|? ? Hd Hds']; subst.
  unfold Digits.string_of_digits. cbn [map string_of_list_ascii append Digits.parse_acc].
  rewrite (digit_of_ascii_of_digit d Hd). apply (IH rest (10 * acc + d) Hds').
Qed.

Lemma to_digits_are_digits fuel : forall n,
  0 <= n -> Forall Digits.is_digit (Digits.to_digits fuel n).
Proof.
  induction fuel as [|f IH]; intros n Hn; cbn [Digits.to_digits].
  - constructor; [|constructor]. pose proof (Z.mod_pos_bound n 10 ltac:(lia)). unfold Digits.is_digit. lia.
  - destruct (Z.ltb_spec n 10).
    + constructor; [unfold Digits.is_digit; lia|constructor].
    + apply Forall_app. split; [apply IH, Z.div_pos; lia|].
      constructor; [|constructor]. pose proof (Z.mod_pos_bound n 10 ltac:(lia)). unfold Digits.is_digit. lia.
Qed.

Lemma fixed_digits_are_digits k : forall n,
  Forall Digits.is_digit (Digits.fixed_digits k n).
Proof.
  induction k as [|k IH]; intros n; cbn [Digits.fixed_digits]; [constructor|].
  apply Forall_app. split; [apply IH|].
  constructor; [|constructor]. pose proof (Z.mod_pos_bound n 10 ltac:(lia)). unfold Digits.is_digit. lia.
Qed.

Lemma fixed_digits_length k : forall n, List.length (Digits.fixed_digits k n) = k.
Proof.
  induction k as [|k IH]; intros n; cbn [Digits.fixed_digits]; [reflexivity|].
  rewrite length_app, IH. cbn. lia.
Qed.

Lemma fold_step_snoc ds d acc :
  fold_left Digits.step (ds ++ [d]) acc = 10 * fold_left Digits.step ds acc + d.
Proof. rewrite fold_left_app. reflexivity. Qed.

(** The digits that are written are those of the number. *)
Lemma to_digits_value fuel : forall n,
  0 <= n < 10 ^ Z.of_nat (S fuel) -> fold_left Digits.step (Digits.to_digits fuel n) 0 = n.
Proof.
  induction fuel as [|f IH]; intros n Hn; cbn [Digits.to_digits].
  - cbn. change (10 ^ Z.of_nat 1) with 10 in Hn. rewrite Z.mod_small; lia.
  - destruct (Z.ltb_spec n 10); [cbn; unfold Digits.step; lia|].
    rewrite fold_step_snoc, IH.
    + pose proof (Z.div_mod n 10 ltac:(lia)). lia.
    + split; [apply Z.div_pos; lia|].
      apply Z.div_lt_upper_bound; [lia|].
      replace (Z.of_nat (S (S f))) with (1 + Z.of_nat (S f)) in Hn by lia.
      rewrite Z.pow_add_r in Hn by lia. lia.
Qed.

Lemma fixed_digits_value k : forall n,
  0 <= n -> fold_left Digits.step (Digits.fixed_digits k n) 0 = n mod 10 ^ Z.of_nat k.
Proof.
  induction k as [|k IH]; intros n Hn; cbn [Digits.fixed_digits].
  - cbn. now rewrite Z.mod_1_r.
  - rewrite fold_step_snoc, IH by (apply Z.div_pos; lia).
    replace (Z.of_nat (S k)) with (1 + Z.of_nat k) by lia.
    rewrite Z.pow_add_r by lia. change (10 ^ 1) with 10.
    rewrite (Z.rem_mul_r n 10 (10 ^ Z.of_nat k)) by lia. lia.
Qed.

Lemma log2_fuel n : 0 <= n -> n < 10 ^ Z.of_nat (S (Z.to_nat (Z.log2 n))).
Proof.
  intros Hn. destruct (Z.eq_dec n 0) as [->|Hnz]; [reflexivity|].
  destruct (Z.log2_spec n ltac:(lia)) as [_ Hhi].
  pose proof (Z.log2_nonneg n) as Hl.
  eapply Z.lt_le_trans; [exact Hhi|].
  replace (Z.of_nat (S (Z.to_nat (Z.log2 n)))) with (Z.succ (Z.log2 n)) by lia.
  apply Z.pow_le_mono_l. lia.
Qed.

Lemma string_of_digits_length ds :
  String.length (Digits.string_of_digits ds) = List.length ds.
Proof.
  unfold Digits.string_of_digits. induction ds as [|d ds IH]; [reflexivity|].
  cbn. now rewrite IH.
Qed.

(** A numeral [digits . rest] splits at its point. *)
Lemma before_point_digits ds : forall rest,
  Forall Digits.is_digit ds ->
  Float64.before_point (Digits.string_of_digits ds ++ String "."%char rest)
  = Digits.string_of_digits ds.
Proof.
  induction ds as [|d ds IH]; intros rest Hds.
  - reflexivity.
  - inversion Hds as [|? ? Hd Hds']; subst.
    unfold Digits.string_of_digits. cbn [map string_of_list_ascii append Float64.before_point].
    destruct (ascii_of_digit_plain d Hd) as (_ & _ & ->).
    f_equal. apply (IH rest Hds').
Qed.

Lemma after_point_digits ds : forall rest,
  Forall Digits.is_digit ds ->
  Float64.after_point (Digits.string_of_digits ds ++ String "."%char rest) = rest.
Proof.
  induction ds as [|d ds IH]; intros rest Hds.
  - reflexivity.
  - inversion Hds as [|? ? Hd Hds']; subst.
    unfold Digits.string_of_digits. cbn [map string_of_list_ascii append Float64.after_point].
    destruct (ascii_of_digit_plain d Hd) as (_ & _ & ->).
    apply (IH rest Hds').
Qed.

Lemma split_sign_plain c r :
  c <> "+"%char -> c <> "-"%char -> Strconv.split_sign (String c r) = (false, String c r).
Proof.
  intros Hp Hm. unfold Strconv.split_sign.
  destruct c as [[] [] [] [] [] [] [] []]; try reflexivity; congruence.
Qed.

Lemma print_nat_head n :
  0 <= n ->
  exists d ds, Digits.to_digits (Z.to_nat (Z.log2 n)) n = d :: ds /\ Digits.is_digit d.
Proof. intros Hn. apply to_digits_head. exact Hn. Qed.

Lemma print_nat_parse n rest acc :
  0 <= n ->
  Digits.parse_acc (Digits.print_nat n ++ rest) acc
  = Digits.parse_acc rest (fold_left Digits.step (Digits.to_digits (Z.to_nat (Z.log2 n)) n) acc).
Proof.
  intros Hn. unfold Digits.print_nat. apply parse_acc_digits, to_digits_are_digits. exact Hn.
Qed.

Lemma parse_print_nat n : 0 <= n -> Digits.parse (Digits.print_nat n) = Some n.
Proof.
  intros Hn. unfold Digits.parse.
  destruct (print_nat_head n Hn) as (d & ds & E & Hd).
  pose proof (print_nat_parse n EmptyString 0 Hn) as Hp.
  rewrite string_app_nil_r in Hp. cbn [Digits.parse_acc] in Hp.
  rewrite to_digits_value in Hp by (split; [exact Hn|apply log2_fuel; exact Hn]).
  unfold Digits.print_nat, Digits.string_of_digits in *. rewrite E in *.
  cbn [map string_of_list_ascii] in *. exact Hp.
Qed.

(** An [int64] written with [%d] is read back by [ParseInt]. *)
Lemma ParseInt_FormatInt v :
  Int64.in_range v = true -> Strconv.ParseInt (Strconv.FormatInt v) = Some v.
Proof.
  intros Hr. unfold Strconv.ParseInt, Strconv.FormatInt.
  destruct (Z.ltb_spec v 0) as [Hneg|Hpos].
  - cbn [Strconv.split_sign]. rewrite parse_print_nat by lia.
    rewrite Z.opp_involutive, Hr. reflexivity.
  - destruct (print_nat_head v Hpos) as (d & ds & E & Hd).
    pose proof (parse_print_nat v Hpos) as Hp.
    unfold Digits.print_nat, Digits.string_of_digits in *. rewrite E in *.
    cbn [map string_of_list_ascii] in *.
    destruct (ascii_of_digit_plain d Hd) as (Hplus & Hminus & _).
    rewrite (split_sign_plain _ _ Hplus Hminus), Hp, Hr. reflexivity.
Qed.

(** The eight-decimal numeral of [N / 10^8] has that value. *)
Lemma decimal_value_format N :
  0 <= N ->
  Float64.decimal_value
    (Digits.print_nat (N / 10 ^ 8)
     ++ String "."%char (Digits.string_of_digits (Digits.fixed_digits 8 (N mod 10 ^ 8))))
  = Some (inject_Z N / inject_Z (10 ^ 8))%Q.
Proof.
  intros HN.
  assert (Hip : 0 <= N / 10 ^ 8) by (apply Z.div_pos; lia).
  assert (Hfp : 0 <= N mod 10 ^ 8 < 10 ^ 8) by (apply Z.mod_pos_bound; lia).
  unfold Float64.decimal_value, Digits.print_nat.
  rewrite before_point_digits, after_point_digits by (apply to_digits_are_digits; exact Hip).
  rewrite !string_of_digits_length, fixed_digits_length.
  destruct (Nat.eqb_spec (List.length (Digits.to_digits (Z.to_nat (Z.log2 (N / 10 ^ 8))) (N / 10 ^ 8)) + 8) 0)
    as [E|_]; [lia|].
  pose proof (parse_acc_digits (Digits.to_digits (Z.to_nat (Z.log2 (N / 10 ^ 8))) (N / 10 ^ 8))
                EmptyString 0 (to_digits_are_digits _ _ Hip)) as H1.
  rewrite string_app_nil_r in H1. rewrite H1. cbn [Digits.parse_acc].
  pose proof (parse_acc_digits (Digits.fixed_digits 8 (N mod 10 ^ 8))
                EmptyString 0 (fixed_digits_are_digits _ _)) as H2.
  rewrite string_app_nil_r in H2. rewrite H2. cbn [Digits.parse_acc].
  rewrite to_digits_value by (split; [exact Hip|apply log2_fuel; exact Hip]).
  rewrite fixed_digits_value by lia.
  change (Z.of_nat 8) with 8.
  rewrite (Z.mod_small (N mod 10 ^ 8)) by lia.
  replace (N / 10 ^ 8 * 10 ^ 8 + N mod 10 ^ 8) with N
    by (pose proof (Z.div_mod N (10 ^ 8) ltac:(lia)); lia).
  reflexivity.
Qed.

(** A non-negative value written with [%.8f] is read back as the
    binary64 number nearest to its eight-decimal rounding. *)
Lemma ParseFloat_format_f8 (f : Q) :
  (0 <= f)%Q ->
  (Float64.RN (inject_Z (Float64.scaled8 f) / inject_Z (10 ^ 8)) < Float64.pow2 1024)%Q ->
  Float64.ParseFloat (Float64.format_f8 f)
  = Some (Float64.RN (inject_Z (Float64.scaled8 f) / inject_Z (10 ^ 8))).
Proof.
  intros Hf Hfin. unfold Float64.format_f8.
  destruct (Qlt_le_dec f 0) as [Hneg|_]; [lra|].
  assert (HN : 0 <= Float64.scaled8 f).
  { unfold Float64.scaled8. apply Rounding.rne_nonneg. apply Qmult_le_0_compat; [apply Qabs_nonneg|discriminate]. }
  assert (Hip : 0 <= Float64.scaled8 f / 10 ^ 8) by (apply Z.div_pos; lia).
  unfold Float64.ParseFloat.
  destruct (print_nat_head _ Hip) as (d & ds & E & Hd).
  destruct (ascii_of_digit_plain d Hd) as (Hplus & Hminus & _).
  assert (Hsplit : forall rest, Strconv.split_sign (Digits.print_nat (Float64.scaled8 f / 10 ^ 8) ++ rest)
                   = (false, (Digits.print_nat (Float64.scaled8 f / 10 ^ 8) ++ rest)%string)).
  { intros rest. unfold Digits.print_nat, Digits.string_of_digits. rewrite E.
    cbn [map string_of_list_ascii append]. apply split_sign_plain; assumption. }
  rewrite Hsplit, decimal_value_format by exact HN.
  destruct (Qle_bool (Float64.pow2 1024) _) eqn:Hb; [|reflexivity].
  apply Qle_bool_iff in Hb. lra.
Qed.

(** ** One axis, recorded and replayed *)

Section Axis.

Import Float64.
Local Open Scope Q_scope.

(** What the Player reads back for a coordinate [x] recorded on an axis
    of length [W <= 10^8] is within [6e-9] of [x / W]: half a unit of the
    eighth decimal, and three roundings. *)
Lemma recorded_close (x W : Z) :
  (0 < W <= 10 ^ 8)%Z -> (0 <= x < W)%Z ->
  let a := fdiv (of_int x) (of_int W) in
  let b := RN (inject_Z (scaled8 a) / inject_Z (10 ^ 8)) in
  0 <= a /\ 0 <= b /\ Qabs (b - inject_Z x / inject_Z W) <= 6 # 1000000000.
Proof.
  intros HW Hx. cbv zeta. unfold fdiv, of_int.
  rewrite (Rounding.RN_int x), (Rounding.RN_int W) by lia.
  set (q0 := inject_Z x / inject_Z W) in *.
  assert (HWq : 0 < inject_Z W) by (change 0 with (inject_Z 0); rewrite <- Zlt_Qlt; lia).
  assert (Hq0 : 0 <= q0).
  { unfold q0. apply Qle_shift_div_l; [exact HWq|]. rewrite Qmult_0_l.
    change 0 with (inject_Z 0). rewrite <- Zle_Qle. lia. }
  assert (Hq1 : q0 <= 1).
  { unfold q0. apply Qle_shift_div_r; [exact HWq|]. rewrite Qmult_1_l.
    rewrite <- Zle_Qle. lia. }
  pose proof (Rounding.RN_close q0 Hq0) as Ha.
  pose proof (Rounding.RN_nonneg q0 Hq0) as Ha0.
  set (a := RN q0) in *.
  assert (EN : scaled8 a = rne (a * 100000000)).
  { unfold scaled8. apply Rounding.rne_comp. rewrite Qabs_pos by exact Ha0. reflexivity. }
  rewrite EN. change (inject_Z (10 ^ 8)) with 100000000.
  pose proof (Rounding.rne_error (a * 100000000)) as HN.
  assert (HN0 : (0 <= rne (a * 100000000))%Z) by (apply Rounding.rne_nonneg; lra).
  set (N := inject_Z (rne (a * 100000000))) in *.
  assert (HN0' : 0 <= N)
    by (change 0 with (inject_Z 0); unfold N; rewrite <- Zle_Qle; exact HN0).
  set (n8 := N / 100000000).
  assert (En8 : N == n8 * 100000000) by (unfold n8; field).
  assert (Hn8 : 0 <= n8) by (unfold n8; apply Qle_shift_div_l; lra).
  pose proof (Rounding.RN_close n8 Hn8) as Hb.
  pose proof (Rounding.RN_nonneg n8 Hn8) as Hb0.
  set (b := RN n8) in *.
  apply Qabs_Qle_condition in Ha, HN, Hb.
  clearbody a N n8 b q0.
  split; [exact Ha0|]. split; [exact Hb0|].
  apply Qabs_Qle_condition. lra.
Qed.

(** Scaling a value [b] within [6e-9] of [q0] to an axis of length
    [W2 <= 10^8] on which [q0] falls on the integer [T], and truncating,
    gives [T] or [T - 1]. *)
Lemma replay_close (b q0 : Q) (W2 T : Z) :
  0 <= b -> 0 <= q0 <= 1 -> Qabs (b - q0) <= 6 # 1000000000 ->
  (0 < W2 <= 10 ^ 8)%Z -> inject_Z T == q0 * inject_Z W2 ->
  (T - 1 <= to_int (fmul b (of_int W2)) <= T)%Z.
Proof.
  intros Hb0 [Hq0 Hq1] Hclose HW2 HT.
  unfold fmul, of_int. rewrite (Rounding.RN_int W2) by lia.
  assert (HW2' : 0 < inject_Z W2 <= 100000000).
  { split; [change 0 with (inject_Z 0); rewrite <- Zlt_Qlt; lia|].
    change 100000000 with (inject_Z (10 ^ 8)). rewrite <- Zle_Qle. lia. }
  set (w := inject_Z W2) in *.
  assert (Hp0 : 0 <= b * w) by (apply Qmult_le_0_compat; lra).
  pose proof (Rounding.RN_close _ Hp0) as Hc.
  pose proof (Rounding.RN_nonneg _ Hp0) as Hc0.
  set (c := RN (b * w)) in *.
  apply Qabs_Qle_condition in Hclose, Hc.
  clearbody c w.
  assert (Hd1 : (b - q0) * w <= (6 # 1000000000) * w)
    by (apply Qmult_le_compat_r; lra).
  assert (Hd2 : (q0 - b) * w <= (6 # 1000000000) * w)
    by (apply Qmult_le_compat_r; lra).
  assert (Hqw : q0 * w <= 1 * 100000000)
    by (apply Qmult_le_compat_nonneg; split; lra).
  apply Rounding.to_int_near; [exact Hc0| |]; rewrite HT; lra.
Qed.

(** A coordinate [x] recorded on an axis of length [W] and replayed on
    an axis [k] times as long comes back as [k * x] or [k * x - 1]. *)
Lemma axis_roundtrip (x W k : Z) :
  (0 < W)%Z -> (0 <= x < W)%Z -> (1 <= k)%Z -> (k * W <= 10 ^ 8)%Z ->
  exists f,
    ParseFloat (format_f8 (fdiv (of_int x) (of_int W))) = Some f
    /\ (k * x - 1 <= to_int (fmul f (of_int (k * W))) <= k * x)%Z.
Proof.
  intros HW Hx Hk HkW.
  assert (HW8 : (0 < W <= 10 ^ 8)%Z) by nia.
  destruct (recorded_close x W HW8 Hx) as (Ha0 & Hb0 & Hclose).
  cbv zeta in Ha0, Hb0, Hclose.
  set (a := fdiv (of_int x) (of_int W)) in *.
  set (b := RN (inject_Z (scaled8 a) / inject_Z (10 ^ 8))) in *.
  assert (HWq : 0 < inject_Z W) by (change 0 with (inject_Z 0); rewrite <- Zlt_Qlt; lia).
  assert (Hq0 : 0 <= inject_Z x / inject_Z W).
  { apply Qle_shift_div_l; [exact HWq|]. rewrite Qmult_0_l.
    change 0 with (inject_Z 0). rewrite <- Zle_Qle. lia. }
  assert (Hq1 : inject_Z x / inject_Z W <= 1).
  { apply Qle_shift_div_r; [exact HWq|]. rewrite Qmult_1_l. rewrite <- Zle_Qle. lia. }
  exists b. split.
  - apply ParseFloat_format_f8; [exact Ha0|]. fold b.
    apply Qabs_Qle_condition in Hclose.
    assert (Hbig : 8 <= pow2 1024) by (apply Qle_bool_iff; vm_compute; reflexivity).
    generalize dependent (inject_Z x / inject_Z W). intros. clearbody b. lra.
  - apply (replay_close b (inject_Z x / inject_Z W)); [exact Hb0|split; assumption|exact Hclose|nia|].
    rewrite !inject_Z_mult. field. lra.
Qed.

End Axis.

(** ** A recorded row, played *)

(** A sample recorded on a screen of logical size [W x H] and played on
    a screen [k] times as large in both directions, both within
    [10^8]: the Player accepts the row and moves to [k] times the
    recorded position, or one unit short of it, in each axis. *)
Lemma play_recorded_row (g : Recorder.geometry) (t : Recorder.tick) (k : Z) :
  0 < Recorder.logicalWidth g -> 0 < Recorder.logicalHeight g ->
  1 <= k ->
  k * Recorder.logicalWidth g <= 10 ^ 8 -> k * Recorder.logicalHeight g <= 10 ^ 8 ->
  0 <= fst (Recorder.mouse t) < Recorder.logicalWidth g ->
  0 <= snd (Recorder.mouse t) < Recorder.logicalHeight g ->
  Int64.in_range (Recorder.timestamp t) = true ->
  exists x' y',
    Player.main (FL := Float64.binary64)
      (k * Recorder.logicalWidth g) (k * Recorder.logicalHeight g)
      (Recorder.rows (Recorder.main (FL := Float64.binary64) g [t]))
    = Player.Finished [Player.Move x' y']
    /\ k * fst (Recorder.mouse t) - 1 <= x' <= k * fst (Recorder.mouse t)
    /\ k * snd (Recorder.mouse t) - 1 <= y' <= k * snd (Recorder.mouse t).
Proof.
  intros HW HH Hk HkW HkH Hx Hy Hts.
  destruct (axis_roundtrip _ _ k HW Hx Hk HkW) as (fx & Px & Bx).
  destruct (axis_roundtrip _ _ k HH Hy Hk HkH) as (fy & Py & By).
  exists (Float64.to_int (Float64.fmul fx (Float64.of_int (k * Recorder.logicalWidth g)))),
         (Float64.to_int (Float64.fmul fy (Float64.of_int (k * Recorder.logicalHeight g)))).
  split; [|split; assumption].
  rewrite rows_main. cbn [map].
  assert (Hparsed : Player.parsed (FL := Float64.binary64) (Recorder.sample g t)
                    = Some (Recorder.timestamp t, fx, fy)).
  { unfold Player.parsed, Recorder.sample. destruct (Recorder.mouse t) as [mx my].
    cbn [fst snd] in *. cbn [List.length Nat.eqb negb nth].
    rewrite ParseInt_FormatInt by exact Hts.
    change (@ParseFloat Float64.binary64) with Float64.ParseFloat.
    change (@format_f8 Float64.binary64) with Float64.format_f8.
    change (@fdiv Float64.binary64) with Float64.fdiv.
    change (@of_int Float64.binary64) with Float64.of_int.
    rewrite Px, Py. reflexivity. }
  unfold Player.main.
  rewrite ReadAll_same_count.
  - rewrite (playback_accept _ _ 0 0 _ [] _ Hparsed). reflexivity.
  - constructor; [|constructor]. unfold Recorder.sample.
    destruct (Recorder.mouse t); reflexivity.
Qed.

(** C4, as stated, on a screen of logical size [10^9 x 10^9]: the
    position (4, 4) is recorded as [0.00000000] in both axes and comes
    back as (0, 0), four units off. *)
Lemma huge_screen_loses_position :
  let g := {| Recorder.logicalWidth := 10 ^ 9; Recorder.logicalHeight := 10 ^ 9;
              Recorder.physicalWidth := 10 ^ 9; Recorder.physicalHeight := 10 ^ 9 |} in
  let t := Logs.tick_at 1000 4 4 Recorder.TimedOut 0 in
  Recorder.sample (FL := Float64.binary64) g t
  = ["1000"; "0.00000000"; "0.00000000"]%string
  /\ Player.main (FL := Float64.binary64) (10 ^ 9) (10 ^ 9)
       (Recorder.rows (Recorder.main (FL := Float64.binary64) g [t]))
     = Player.Finished [Player.Move 0 0]
  /\ 1 < Z.abs (0 - 4).
Proof. vm_compute. repeat split. Qed.

(** C4, amended.  On a screen whose logical width and height are at
    most [10^8], a valid position that the Recorder writes and the
    Player reads back on the same screen comes back equal or one unit
    smaller in each axis. *)
Theorem roundtrip_within_one_unit (g : Recorder.geometry) (t : Recorder.tick) :
  0 < Recorder.logicalWidth g <= 10 ^ 8 ->
  0 < Recorder.logicalHeight g <= 10 ^ 8 ->
  0 <= fst (Recorder.mouse t) < Recorder.logicalWidth g ->
  0 <= snd (Recorder.mouse t) < Recorder.logicalHeight g ->
  Int64.in_range (Recorder.timestamp t) = true ->
  exists x' y',
    Player.main (FL := Float64.binary64)
      (Recorder.logicalWidth g) (Recorder.logicalHeight g)
      (Recorder.rows (Recorder.main (FL := Float64.binary64) g [t]))
    = Player.Finished [Player.Move x' y']
    /\ fst (Recorder.mouse t) - 1 <= x' <= fst (Recorder.mouse t)
    /\ snd (Recorder.mouse t) - 1 <= y' <= snd (Recorder.mouse t).
Proof.
  intros HW HH Hx Hy Hts.
  destruct (play_recorded_row g t 1) as (x' & y' & Hplay & Bx & By); try lia; try assumption.
  exists x', y'.
  replace (1 * Recorder.logicalWidth g) with (Recorder.logicalWidth g) in Hplay by lia.
  replace (1 * Recorder.logicalHeight g) with (Recorder.logicalHeight g) in Hplay by lia.
  split; [exact Hplay|]. lia.
Qed.

Lemma roundtrip_within_one_unit_witness :
  exists x' y',
    Player.main (FL := Float64.binary64) 1920 1080
      (Recorder.rows (Recorder.main (FL := Float64.binary64) Logs.full_hd
                        [Logs.tick_at 1000 1 1079 Recorder.TimedOut 0]))
    = Player.Finished [Player.Move x' y']
    /\ 1 - 1 <= x' <= 1
    /\ 1079 - 1 <= y' <= 1079.
Proof.
  exact (roundtrip_within_one_unit Logs.full_hd
           (Logs.tick_at 1000 1 1079 Recorder.TimedOut 0)
           ltac:(cbn; lia) ltac:(cbn; lia) ltac:(cbn; lia) ltac:(cbn; lia) eq_refl).
Defined.




(** * Further properties of the programs *)

(** ** The Player, on any file that loads *)

Lemma loaded_body {FL : FloatLib} (W H : Z) (file : list Csv.record) (tr : list Player.event) :
  Player.main W H file = Player.Finished tr ->
  tr = Player.playback W H 0 0 (tl file)
  /\ Forall (fun r => List.length r = List.length (hd [] file)) (tl file).
Proof.
  unfold Player.main, Csv.ReadAll. destruct file as [|hdr body].
  - intros [= <-]. split; [reflexivity|constructor].
  - destruct (forallb (fun r => Nat.eqb (List.length r) (List.length hdr)) body) eqn:Hall;
      [|discriminate].
    intros [= <-]. split; [reflexivity|].
    apply Forall_forall. intros r Hr.
    rewrite forallb_forall in Hall. apply Nat.eqb_eq, Hall, Hr.
Qed.

Lemma accepted_or_rejected {FL : FloatLib} (records : list Csv.record) :
  (List.length (Player.accepted records)
   + List.length (filter (fun r => match Player.parsed r with None => true | _ => false end)
                    records)
   = List.length records)%nat.
Proof.
  induction records as [|r rest IH]; [reflexivity|].
  cbn [Player.accepted flat_map filter]. fold (Player.accepted rest).
  destruct (Player.parsed r); cbn [app List.length]; lia.
Qed.

(** Whatever the file, if it loads the Player moves to the de-normalised
    positions of the body rows it accepts, in the order of the file;
    timestamps and rejected rows have no influence on where it moves. *)
Theorem played_positions_follow_the_file {FL : FloatLib} (W H : Z)
    (file : list Csv.record) (tr : list Player.event) :
  Player.main W H file = Player.Finished tr ->
  Player.moves tr = map (Player.position W H) (Player.accepted (tl file)).
Proof.
  intros Hmain. destruct (loaded_body W H file tr Hmain) as [-> _].
  apply moves_playback.
Qed.

Lemma played_positions_follow_the_file_witness :
  Player.moves (Player.playback (FL := Float64.binary64) 1920 1080 0 0 (tl Logs.bad_number))
  = map (Player.position (FL := Float64.binary64) 1920 1080)
        (Player.accepted (tl Logs.bad_number)).
Proof.
  exact (played_positions_follow_the_file (FL := Float64.binary64) 1920 1080
           Logs.bad_number _ eq_refl).
Defined.

(** Every body row of a file that loads leads to exactly one positioning
    command or to exactly one diagnostic. *)
Theorem every_row_moves_or_is_reported {FL : FloatLib} (W H : Z)
    (file : list Csv.record) (tr : list Player.event) :
  Player.main W H file = Player.Finished tr ->
  (List.length (Player.moves tr) + List.length (Player.diagnostics tr)
   = List.length (tl file))%nat.
Proof.
  intros Hmain. destruct (loaded_body W H file tr Hmain) as [-> _].
  rewrite moves_playback, diagnostics_playback, length_map.
  apply accepted_or_rejected.
Qed.

Lemma every_row_moves_or_is_reported_witness :
  let tr := Player.playback (FL := Float64.binary64) 1920 1080 0 0 (tl Logs.bad_number) in
  (List.length (Player.moves tr) + List.length (Player.diagnostics tr) = 10)%nat.
Proof.
  exact (every_row_moves_or_is_reported (FL := Float64.binary64) 1920 1080
           Logs.bad_number _ eq_refl).
Defined.

Lemma unparsable_row_skipped_witness :
  exists tr,
    Player.main (FL := Float64.binary64) 1920 1080 Logs.bad_number = Player.Finished tr
    /\ Player.moves tr
       = map (Player.position (FL := Float64.binary64) 1920 1080)
             (Player.accepted (firstn 4 (tl Logs.bad_number) ++ skipn 5 (tl Logs.bad_number)))
    /\ List.length (Player.diagnostics tr) = 1%nat.
Proof.
  exact (unparsable_row_skipped (FL := Float64.binary64) 1920 1080
           Recorder.header (firstn 4 (tl Logs.bad_number))
           (nth 5 Logs.bad_number []) (skipn 5 (tl Logs.bad_number))
           eq_refl eq_refl
           ltac:(vm_compute; reflexivity)
           ltac:(repeat constructor; vm_compute; discriminate)).
Defined.

(** When the first body row is accepted, nothing comes before its move,
    and the sleeps that follow are the steps from each accepted timestamp
    to the next, taken in [int64]. *)
Theorem sleeps_are_steps_between_rows {FL : FloatLib} (W H : Z)
    (hdr first : Csv.record) (rest : list Csv.record)
    (p : Z * float64 * float64) (tr : list Player.event) :
  Player.main W H (hdr :: first :: rest) = Player.Finished tr ->
  Player.parsed first = Some p ->
  Player.before_first_move tr = []
  /\ Player.sleeps tr = Player.gaps (Player.offset p) (map Player.offset (Player.accepted rest)).
Proof.
  intros Hmain Hp. destruct (loaded_body W H _ tr Hmain) as [-> _].
  cbn [tl]. split; [exact (first_row_not_delayed W H first rest p Hp)|].
  rewrite (playback_accept W H 0 0 first rest p Hp).
  cbn [Nat.ltb Nat.leb app Player.sleeps flat_map].
  fold (Player.sleeps (Player.playback W H 1 (Player.offset p) rest)).
  apply sleeps_playback_later. lia.
Qed.

Lemma sleeps_are_steps_between_rows_witness :
  let tr := Player.playback (FL := Float64.binary64) 1920 1080 0 0 (tl Logs.five_seconds) in
  Player.before_first_move tr = []
  /\ Player.sleeps tr = [1000000000; 1000000000; 1000000000; 1000000000].
Proof.
  exact (sleeps_are_steps_between_rows (FL := Float64.binary64) 1920 1080
           Recorder.header (nth 1 Logs.five_seconds []) (skipn 2 Logs.five_seconds)
           (hd (0, 0%Q, 0%Q)
               (Player.accepted (FL := Float64.binary64) [nth 1 Logs.five_seconds []]))
           _ eq_refl ltac:(vm_compute; reflexivity)).
Defined.

(** A header with another number of fields than three: either the file
    does not load, or every body row has that number of fields, is
    reported as malformed, and nothing is played. *)
Theorem other_field_count_plays_nothing {FL : FloatLib} (W H : Z)
    (hdr : Csv.record) (body : list Csv.record) (tr : list Player.event) :
  List.length hdr <> 3%nat ->
  Player.main W H (hdr :: body) = Player.Finished tr ->
  tr = map (fun r => Player.LogPrintf (Player.SkippingMalformed r)) body.
Proof.
  intros Hn Hmain. destruct (loaded_body W H _ tr Hmain) as [-> Hlen].
  cbn [tl hd] in *. clear Hmain.
  generalize 0%nat at 1. generalize 0 at 1.
  induction body as [|r body IH]; intros last i; [reflexivity|].
  inversion Hlen as [|? ? Hr Hbody]; subst.
  cbn [Player.playback map].
  destruct (Nat.eqb_spec (List.length r) 3) as [E|_]; [congruence|].
  cbn [negb]. f_equal. apply IH. exact Hbody.
Qed.

Lemma other_field_count_plays_nothing_witness :
  Player.playback (FL := Float64.binary64) 1920 1080 0 0
    [["1000"; "0.5"]; ["2000"; "0.25"]]%string
  = [Player.LogPrintf (Player.SkippingMalformed ["1000"; "0.5"]%string);
     Player.LogPrintf (Player.SkippingMalformed ["2000"; "0.25"]%string)].
Proof.
  exact (other_field_count_plays_nothing (FL := Float64.binary64) 1920 1080
           ["timestamp"; "norm"]%string [["1000"; "0.5"]; ["2000"; "0.25"]]%string _
           ltac:(cbn; discriminate) eq_refl).
Defined.

(** ** The two recorders of the normalised log *)

Section RecorderRuns.

Context {FL : FloatLib}.
Variable g : Recorder.geometry.

Lemma started_on_tick t :
  Run.started (Recorder.on_tick g t)
  = (if Run.pictured t then [Recorder.estimator t] else [])
  /\ Run.called (Recorder.on_tick g t) = [].
Proof.
  unfold Recorder.on_tick, Run.pictured. destruct (Recorder.mouse t) as [mx my].
  destruct (Recorder.capture_ok t), (Recorder.encode_ok t), (Recorder.debug_ok t);
    split; reflexivity.
Qed.

Lemma called_on_tick_crosscheck t :
  Run.called (Recorder.on_tick_crosscheck g t)
  = (if Run.pictured t then [Recorder.estimator t] else [])
  /\ Run.started (Recorder.on_tick_crosscheck g t) = [].
Proof.
  unfold Recorder.on_tick_crosscheck, Run.pictured. destruct (Recorder.mouse t) as [mx my].
  destruct (Recorder.capture_ok t), (Recorder.encode_ok t), (Recorder.debug_ok t),
    (Recorder.estimator t); split; reflexivity.
Qed.

End RecorderRuns.

(** In a run of [src/recorder/main.go] the estimator is started once, in
    a goroutine, for every tick whose screenshot was captured and
    encoded, in the order of the ticks, and for no other tick: a failed
    capture or encoding never leads to a call, a failed debug file does
    not prevent it, and the handler itself never waits for a call. *)
Theorem estimator_started_once_per_picture {FL : FloatLib} (g : Recorder.geometry)
    (ticks : list Recorder.tick) :
  Run.started (Recorder.main g ticks) = map Recorder.estimator (filter Run.pictured ticks)
  /\ Run.called (Recorder.main g ticks) = [].
Proof.
  unfold Recorder.main, Recorder.recording, Run.started, Run.called.
  rewrite !flat_map_app. cbn [flat_map app]. rewrite !app_nil_r.
  induction ticks as [|t ticks [IH1 IH2]]; [split; reflexivity|].
  cbn [flat_map filter]. rewrite !flat_map_app.
  destruct (started_on_tick g t) as [Hs Hc].
  unfold Run.started, Run.called in Hs, Hc. rewrite Hs, Hc, IH1, IH2.
  destruct (Run.pictured t); split; reflexivity.
Qed.

(** The cross-checking recorder appends the rows that
    [src/recorder/main.go] appends, tick for tick: one sample per tick,
    whatever capture, encoding and the estimator do.  It calls the
    estimator in the handler, once for every tick whose screenshot was
    captured and encoded. *)
Theorem crosscheck_appends_the_same_rows {FL : FloatLib} (g : Recorder.geometry)
    (ticks : list Recorder.tick) :
  Recorder.rows (flat_map (Recorder.on_tick_crosscheck g) ticks)
  = Recorder.rows (flat_map (Recorder.on_tick g) ticks)
  /\ Recorder.rows (flat_map (Recorder.on_tick_crosscheck g) ticks)
     = map (Recorder.sample g) ticks
  /\ Run.called (flat_map (Recorder.on_tick_crosscheck g) ticks)
     = map Recorder.estimator (filter Run.pictured ticks).
Proof.
  assert (Hrows : Recorder.rows (flat_map (Recorder.on_tick_crosscheck g) ticks)
                  = map (Recorder.sample g) ticks).
  { induction ticks as [|t ticks IH]; [reflexivity|].
    cbn [flat_map map]. rewrite rows_app, rows_on_tick_crosscheck, IH. reflexivity. }
  split; [now rewrite Hrows, rows_ticks|]. split; [exact Hrows|].
  unfold Run.called. induction ticks as [|t ticks IH]; [reflexivity|].
  cbn [flat_map filter]. rewrite flat_map_app.
  destruct (called_on_tick_crosscheck g t) as [Hc _]. unfold Run.called in Hc.
  rewrite Hc, IH.
  - destruct (Run.pictured t); reflexivity.
  - clear - Hrows. cbn [flat_map map] in Hrows.
    rewrite rows_app, rows_on_tick_crosscheck in Hrows. now injection Hrows.
Qed.

(** ** From the Recorder to the Player *)

Lemma load_recorded {FL : FloatLib} (g : Recorder.geometry)
    (ticks : list Recorder.tick) (W H : Z) :
  Player.main W H (Recorder.rows (Recorder.main g ticks))
  = Player.Finished (Player.playback W H 0 0 (map (Recorder.sample g) ticks)).
Proof.
  rewrite rows_main. unfold Player.main. rewrite ReadAll_same_count; [reflexivity|].
  apply Forall_forall. intros r Hr. apply in_map_iff in Hr as (t & <- & _).
  unfold Recorder.sample. destruct (Recorder.mouse t); reflexivity.
Qed.

(** Every log that [src/recorder/main.go] writes loads in the Player,
    on any screen: all its rows have three fields, so the reader's field
    count check passes and the load is never fatal; and each tick of the
    run leads to one positioning command or to one diagnostic. *)
Theorem recorded_log_always_loads {FL : FloatLib} (g : Recorder.geometry)
    (ticks : list Recorder.tick) (W H : Z) :
  exists tr,
    Player.main W H (Recorder.rows (Recorder.main g ticks)) = Player.Finished tr
    /\ (List.length (Player.moves tr) + List.length (Player.diagnostics tr)
        = List.length ticks)%nat.
Proof.
  rewrite load_recorded. eexists. split; [reflexivity|].
  rewrite moves_playback, diagnostics_playback, length_map, accepted_or_rejected.
  apply length_map.
Qed.

(** ** How much the buffer can hold back *)

Lemma buffer_is_positive : (1 <= Writer.defaultBufSize)%nat.
Proof. apply Nat.leb_le. vm_compute. reflexivity. Qed.

Lemma WriteByte_bound w c :
  (String.length (Writer.pending w) <= Writer.defaultBufSize)%nat ->
  (String.length (Writer.pending (Writer.WriteByte w c)) <= Writer.defaultBufSize)%nat.
Proof.
  intros Hw. unfold Writer.WriteByte. pose proof buffer_is_positive as Hpos.
  destruct (Nat.leb_spec Writer.defaultBufSize (String.length (Writer.pending w)));
    cbn [Writer.pending]; [exact Hpos|].
  rewrite string_length_app. cbn [String.length].
  revert H Hw. generalize Writer.defaultBufSize. intros. lia.
Qed.

Lemma WriteString_bound s : forall w,
  (String.length (Writer.pending w) <= Writer.defaultBufSize)%nat ->
  (String.length (Writer.pending (Writer.WriteString w s)) <= Writer.defaultBufSize)%nat.
Proof.
  induction s as [|c s IH]; intros w Hw; [exact Hw|].
  cbn [Writer.WriteString]. apply IH, WriteByte_bound, Hw.
Qed.

Lemma Write_all_bound rs : forall w,
  (String.length (Writer.pending w) <= Writer.defaultBufSize)%nat ->
  (String.length (Writer.pending (fold_left Writer.Write rs w)) <= Writer.defaultBufSize)%nat.
Proof.
  induction rs as [|r rs IH]; intros w Hw; [exact Hw|].
  cbn [fold_left]. apply IH. unfold Writer.Write. apply WriteString_bound, Hw.
Qed.

(** At every point of a run of [src/recorder/main.go] the file is a
    prefix of what has been appended, and it lacks at most the last 4096
    bytes: that much, and no more, is lost when the process is killed. *)
Theorem at_most_one_buffer_is_unwritten {FL : FloatLib} (g : Recorder.geometry)
    (ticks : list Recorder.tick) :
  let appended := Writer.encode_all (Recorder.header :: map (Recorder.sample g) ticks) in
  let running := Recorder.exec (Recorder.recording g ticks) in
  exists unwritten,
    appended = (Writer.file running ++ unwritten)%string
    /\ (String.length unwritten <= Writer.defaultBufSize)%nat.
Proof.
  intros appended running. exists (Writer.pending running). split.
  - unfold running, appended. rewrite exec_recording.
    pose proof (Write_all_bytes (Recorder.header :: map (Recorder.sample g) ticks)
                  Writer.empty) as Hb.
    cbn zeta in Hb. rewrite Hb. reflexivity.
  - unfold running. rewrite exec_recording. apply Write_all_bound.
    cbn. apply Nat.le_0_l.
Qed.

(** ** A whole run, recorded and played *)

Lemma sample_accepted (g : Recorder.geometry) (t : Recorder.tick) :
  0 < Recorder.logicalWidth g <= 10 ^ 8 ->
  0 < Recorder.logicalHeight g <= 10 ^ 8 ->
  Run.on_screen g t ->
  exists p,
    Player.parsed (FL := Float64.binary64) (Recorder.sample g t) = Some p
    /\ Player.offset p = Recorder.timestamp t
    /\ Run.near t (Player.position (FL := Float64.binary64)
                     (Recorder.logicalWidth g) (Recorder.logicalHeight g) p).
Proof.
  intros HW HH (Hx & Hy & Hts).
  destruct (axis_roundtrip _ (Recorder.logicalWidth g) 1 ltac:(lia) Hx ltac:(lia) ltac:(lia))
    as (fx & Px & Bx).
  destruct (axis_roundtrip _ (Recorder.logicalHeight g) 1 ltac:(lia) Hy ltac:(lia) ltac:(lia))
    as (fy & Py & By).
  replace (1 * Recorder.logicalWidth g) with (Recorder.logicalWidth g) in Bx by lia.
  replace (1 * Recorder.logicalHeight g) with (Recorder.logicalHeight g) in By by lia.
  exists (Recorder.timestamp t, fx, fy). split; [|split; [reflexivity|]].
  - unfold Player.parsed, Recorder.sample. destruct (Recorder.mouse t) as [mx my].
    cbn [fst snd] in *. cbn [List.length Nat.eqb negb nth].
    rewrite ParseInt_FormatInt by exact Hts.
    change (@ParseFloat Float64.binary64) with Float64.ParseFloat.
    change (@format_f8 Float64.binary64) with Float64.format_f8.
    change (@fdiv Float64.binary64) with Float64.fdiv.
    change (@of_int Float64.binary64) with Float64.of_int.
    rewrite Px, Py. reflexivity.
  - unfold Run.near, Player.position, Player.denormalize. cbn [fst snd].
    change (@to_int Float64.binary64) with Float64.to_int.
    change (@fmul Float64.binary64) with Float64.fmul.
    change (@of_int Float64.binary64) with Float64.of_int.
    lia.
Qed.

Lemma samples_accepted (g : Recorder.geometry) (ticks : list Recorder.tick) :
  0 < Recorder.logicalWidth g <= 10 ^ 8 ->
  0 < Recorder.logicalHeight g <= 10 ^ 8 ->
  Forall (Run.on_screen g) ticks ->
  exists ps,
    map (Player.parsed (FL := Float64.binary64)) (map (Recorder.sample g) ticks) = map Some ps
    /\ map Player.offset ps = map Recorder.timestamp ticks
    /\ Forall2 Run.near ticks
         (map (Player.position (FL := Float64.binary64)
                 (Recorder.logicalWidth g) (Recorder.logicalHeight g)) ps).
Proof.
  intros HW HH Hall. induction Hall as [|t ticks Ht _ (ps & Hp & Ho & Hn)].
  - exists []. repeat split. constructor.
  - destruct (sample_accepted g t HW HH Ht) as (p & Pp & Po & Pn).
    exists (p :: ps). cbn [map]. rewrite Pp, Hp, Po, Ho.
    repeat split. constructor; assumption.
Qed.

Lemma all_accepted {FL : FloatLib} (records : list Csv.record) ps :
  map Player.parsed records = map Some ps ->
  Player.accepted records = ps
  /\ filter (fun r => match Player.parsed r with None => true | _ => false end) records = [].
Proof.
  revert ps. induction records as [|r rest IH]; intros [|p ps] Hps; try discriminate.
  - split; reflexivity.
  - cbn [map] in Hps. injection Hps as Hr Hrest. destruct (IH ps Hrest) as [Ha Hf].
    cbn [Player.accepted flat_map filter]. fold (Player.accepted rest).
    rewrite Hr, Ha, Hf. split; reflexivity.
Qed.

(** A run of [src/recorder/main.go] on a screen of at most [10^8] units
    in each direction, with the pointer on the screen at every tick,
    played by the Player on the same screen: every row is accepted, no
    diagnostic is logged, and the pointer is moved once per tick, in
    order, to the recorded position or one unit short of it in each
    axis. *)
Theorem recorded_run_is_replayed (g : Recorder.geometry) (ticks : list Recorder.tick) :
  0 < Recorder.logicalWidth g <= 10 ^ 8 ->
  0 < Recorder.logicalHeight g <= 10 ^ 8 ->
  Forall (Run.on_screen g) ticks ->
  exists tr,
    Player.main (FL := Float64.binary64)
      (Recorder.logicalWidth g) (Recorder.logicalHeight g)
      (Recorder.rows (Recorder.main (FL := Float64.binary64) g ticks))
    = Player.Finished tr
    /\ Player.diagnostics tr = []
    /\ Forall2 Run.near ticks (Player.moves tr).
Proof.
  intros HW HH Hall.
  destruct (samples_accepted g ticks HW HH Hall) as (ps & Hp & _ & Hn).
  destruct (all_accepted _ ps Hp) as [Ha Hf].
  rewrite load_recorded. eexists. split; [reflexivity|]. split.
  - apply length_zero_iff_nil. rewrite diagnostics_playback, Hf. reflexivity.
  - rewrite moves_playback, Ha. exact Hn.
Qed.

Lemma recorded_run_is_replayed_witness :
  exists tr,
    Player.main (FL := Float64.binary64) 1920 1080
      (Recorder.rows (Recorder.main (FL := Float64.binary64) Logs.full_hd
                        [Logs.tick_at 1000 1 1079 Recorder.TimedOut 0;
                         Logs.tick_at 2000 960 540 (Recorder.Answer "960,540") 0]))
    = Player.Finished tr
    /\ Player.diagnostics tr = []
    /\ Forall2 Run.near
         [Logs.tick_at 1000 1 1079 Recorder.TimedOut 0;
          Logs.tick_at 2000 960 540 (Recorder.Answer "960,540") 0]
         (Player.moves tr).
Proof.
  exact (recorded_run_is_replayed Logs.full_hd
           [Logs.tick_at 1000 1 1079 Recorder.TimedOut 0;
            Logs.tick_at 2000 960 540 (Recorder.Answer "960,540") 0]
           ltac:(cbn; lia) ltac:(cbn; lia)
           ltac:(repeat constructor; cbn; lia)).
Defined.

Lemma gaps_steps ts : forall last,
  Player.paced last ts = true -> Player.gaps last ts = Run.steps last ts.
Proof.
  induction ts as [|t r IH]; intros last Hp; [reflexivity|].
  cbn [Player.paced] in Hp.
  apply andb_prop in Hp as [Hp Hr]. apply andb_prop in Hp as [H1 H2].
  apply Z.leb_le in H1, H2.
  cbn [Player.gaps Run.steps]. rewrite (IH t Hr), delay_exact by lia. reflexivity.
Qed.

(** The same run, in time: when the ticks' timestamps do not decrease
    (and no step exceeds 9223372036854 ms), the Player issues the first
    position at once and sleeps, before each later one, exactly the
    time that passed between the two ticks of the recording. *)
Theorem recorded_timing_is_replayed (g : Recorder.geometry)
    (first : Recorder.tick) (rest : list Recorder.tick) :
  0 < Recorder.logicalWidth g <= 10 ^ 8 ->
  0 < Recorder.logicalHeight g <= 10 ^ 8 ->
  Forall (Run.on_screen g) (first :: rest) ->
  Player.paced (Recorder.timestamp first) (map Recorder.timestamp rest) = true ->
  exists tr,
    Player.main (FL := Float64.binary64)
      (Recorder.logicalWidth g) (Recorder.logicalHeight g)
      (Recorder.rows (Recorder.main (FL := Float64.binary64) g (first :: rest)))
    = Player.Finished tr
    /\ Player.before_first_move tr = []
    /\ Player.sleeps tr
       = Run.steps (Recorder.timestamp first) (map Recorder.timestamp rest).
Proof.
  intros HW HH Hall Hpaced.
  inversion Hall as [|? ? Hfirst Hrest]; subst.
  destruct (sample_accepted g first HW HH Hfirst) as (p & Pp & Po & _).
  destruct (samples_accepted g rest HW HH Hrest) as (ps & Hp & Ho & _).
  destruct (all_accepted _ ps Hp) as [Ha _].
  rewrite load_recorded. eexists. split; [reflexivity|]. cbn [map].
  split; [exact (first_row_not_delayed _ _ _ _ p Pp)|].
  rewrite (playback_accept _ _ 0 0 _ _ p Pp).
  cbn [Nat.ltb Nat.leb app Player.sleeps flat_map].
  fold (Player.sleeps (Player.playback (FL := Float64.binary64)
          (Recorder.logicalWidth g) (Recorder.logicalHeight g) 1 (Player.offset p)
          (map (Recorder.sample g) rest))).
  rewrite sleeps_playback_later by lia.
  rewrite Ha, Ho, Po. apply gaps_steps. exact Hpaced.
Qed.

Lemma recorded_timing_is_replayed_witness :
  exists tr,
    Player.main (FL := Float64.binary64) 1920 1080
      (Recorder.rows (Recorder.main (FL := Float64.binary64) Logs.full_hd
                        [Logs.tick_at 1000 1 1079 Recorder.TimedOut 0;
                         Logs.tick_at 2001 960 540 Recorder.TimedOut 0;
                         Logs.tick_at 3000 0 0 Recorder.TimedOut 0]))
    = Player.Finished tr
    /\ Player.before_first_move tr = []
    /\ Player.sleeps tr = [1001000000; 999000000].
Proof.
  exact (recorded_timing_is_replayed Logs.full_hd
           (Logs.tick_at 1000 1 1079 Recorder.TimedOut 0)
           [Logs.tick_at 2001 960 540 Recorder.TimedOut 0;
            Logs.tick_at 3000 0 0 Recorder.TimedOut 0]
           ltac:(cbn; lia) ltac:(cbn; lia)
           ltac:(repeat constructor; cbn; lia)
           eq_refl).
Defined.

(** ** Values that binary64 holds exactly *)

Module Exact.

Import Float64 Rounding.
Local Open Scope Q_scope.

(** The binary exponent is determined by the value. *)
Lemma ilog2_unique q k : 0 < q -> pow2 k <= q -> q < pow2 (k + 1) -> ilog2 q = k.
Proof.
  intros Hq Hlo Hhi.
  pose proof (ilog2_le q Hq) as H1. pose proof (ilog2_lt q Hq) as H2.
  assert (A : pow2 (ilog2 q) < pow2 (k + 1)) by lra.
  assert (B : pow2 k < pow2 (ilog2 q + 1)) by lra.
  apply pow2_lt_inv in A, B. lia.
Qed.

Lemma ilog2_comp q q' : 0 < q -> q == q' -> ilog2 q = ilog2 q'.
Proof.
  intros Hq E. assert (Hq' : 0 < q') by (rewrite <- E; exact Hq).
  apply ilog2_unique; [exact Hq| |]; rewrite E; [apply ilog2_le|apply ilog2_lt]; exact Hq'.
Qed.

Lemma round_pos_comp q q' : 0 < q -> q == q' -> round_pos q == round_pos q'.
Proof.
  intros Hq E. unfold round_pos, ulp_exp. rewrite (ilog2_comp q q' Hq E).
  set (e := Z.max (ilog2 q' - 52) (-1074)).
  assert (E' : q / pow2 e == q' / pow2 e) by (rewrite E; reflexivity).
  rewrite (rne_comp _ _ E'). reflexivity.
Qed.

(** Rounding depends on the value of a fraction only. *)
Lemma RN_comp q q' : q == q' -> RN q = RN q'.
Proof.
  intros E. unfold RN. apply Qred_complete.
  rewrite (Qcompare_comp q q' E 0 0 (Qeq_refl 0)).
  destruct (Qcompare_spec q' 0) as [H0|Hneg|Hpos].
  - reflexivity.
  - apply Qopp_comp. apply round_pos_comp; [rewrite E; lra|rewrite E; reflexivity].
  - apply round_pos_comp; [rewrite E; exact Hpos|exact E].
Qed.



(** [int(float64(n) * 1.0)] is [n]. *)
Lemma one_of_int n :
  (0 <= n < 2 ^ 53)%Z -> to_int (fmul (of_int n) 1) = n.
Proof.
  intros Hn. unfold fmul, of_int. rewrite (RN_int n Hn).
  assert (E : inject_Z n * 1 == inject_Z n) by ring.
  rewrite (RN_comp _ _ E), (RN_int n Hn).
  unfold to_int, inject_Z. cbn [Qnum Qden]. apply Z.quot_1_r.
Qed.

(** The quotient of a size by itself is 1, by its double 1/2. *)
Lemma ratio_one L : (0 < L < 2 ^ 53)%Z -> fdiv (of_int L) (of_int L) = 1.
Proof.
  intros HL. unfold fdiv, of_int. rewrite (RN_int L) by lia.
  assert (E : inject_Z L / inject_Z L == inject_Z 1).
  { field. change 0 with (inject_Z 0). rewrite inject_Z_injective. lia. }
  rewrite (RN_comp _ _ E). apply RN_int. lia.
Qed.


End Exact.

(** ** Splitting the estimator's answer *)

Lemma Split_cons s : exists piece pieces, Strings.Split s = piece :: pieces.
Proof.
  destruct s as [|c r]; cbn [Strings.Split]; [eauto|].
  destruct (Ascii.eqb c ","%char); [eauto|]. destruct (Strings.Split r); eauto.
Qed.

Lemma commas_cons c r :
  Strings.commas (String c r)
  = ((if Ascii.eqb c ","%char then 1 else 0) + Strings.commas r)%nat.
Proof.
  unfold Strings.commas. cbn [list_ascii_of_string filter].
  destruct (Ascii.eqb c ","%char); reflexivity.
Qed.

(** Joining the pieces with commas gives the text back. *)
Lemma Join_Split s : Strings.Join (Strings.Split s) = s.
Proof.
  induction s as [|c r IH]; [reflexivity|]. cbn [Strings.Split].
  destruct (Split_cons r) as (h & t & E). rewrite E in *.
  destruct (Ascii.eqb_spec c ","%char) as [->|_].
  - change (String ","%char (Strings.Join (h :: t)) = String ","%char r).
    rewrite IH. reflexivity.
  - destruct t as [|h' t'].
    + change (String c (Strings.Join [h]) = String c r). rewrite IH. reflexivity.
    + change (String c (Strings.Join (h :: h' :: t')) = String c r).
      rewrite IH. reflexivity.
Qed.

(** No piece holds a comma, and there is one piece more than commas. *)
Lemma Split_pieces s :
  Forall (fun piece => Strings.commas piece = 0%nat) (Strings.Split s)
  /\ List.length (Strings.Split s) = S (Strings.commas s).
Proof.
  induction s as [|c r [IHp IHl]]; [split; [repeat constructor|reflexivity]|].
  cbn [Strings.Split]. rewrite commas_cons.
  destruct (Split_cons r) as (h & t & E). rewrite E in *.
  inversion IHp as [|? ? Hh Ht]; subst.
  destruct (Ascii.eqb c ","%char) eqn:Hc.
  - split; [constructor; [reflexivity|exact IHp]|]. cbn [List.length] in *. lia.
  - split; [constructor; [|exact Ht]|exact IHl].
    rewrite commas_cons, Hc. exact Hh.
Qed.

Lemma Split_two x : forall y,
  Strings.commas x = 0%nat -> Strings.commas y = 0%nat ->
  Strings.Split (x ++ String ","%char y) = [x; y].
Proof.
  assert (Hone : forall y, Strings.commas y = 0%nat -> Strings.Split y = [y]).
  { induction y as [|c r IH]; [reflexivity|]. rewrite commas_cons.
    cbn [Strings.Split]. destruct (Ascii.eqb c ","%char); [discriminate|].
    intros Hr. rewrite (IH Hr). reflexivity. }
  induction x as [|c r IH]; intros y Hx Hy.
  - cbn. rewrite (Hone y Hy). reflexivity.
  - rewrite commas_cons in Hx. cbn [append Strings.Split].
    destruct (Ascii.eqb c ","%char); [discriminate|].
    rewrite (IH y Hx Hy). reflexivity.
Qed.

(** ** The recorder of the estimator's answer *)

(** The recorder that writes the answer as it is appends a row on a tick
    exactly when the screenshot was captured and encoded and the
    estimator's trimmed answer holds one comma; the row is the tick's
    timestamp and the two pieces of the answer as they stand, numbers or
    not.  The pointer's own position is never written. *)
Theorem verbatim_row_is_the_answer {FL : FloatLib} (TrimSpace : string -> string)
    (g : Recorder.geometry) (t : Recorder.tick) (r : Csv.record) :
  Recorder.rows (Pixels.on_tick_verbatim TrimSpace g t) = [r]
  <-> exists text x y,
        Run.pictured t = true
        /\ Recorder.estimator t = Recorder.Answer text
        /\ TrimSpace text = (x ++ String ","%char y)%string
        /\ Strings.commas x = 0%nat /\ Strings.commas y = 0%nat
        /\ r = [Strconv.FormatInt (Recorder.timestamp t); x; y].
Proof.
  unfold Pixels.on_tick_verbatim, Run.pictured, Pixels.verbatim_row.
  destruct (Recorder.mouse t) as [mx my]. split.
  - destruct (Recorder.capture_ok t); [|discriminate].
    destruct (Recorder.encode_ok t); [|discriminate].
    destruct (Recorder.estimator t) as [text| | |];
      [|destruct (Recorder.debug_ok t); discriminate ..].
    pose proof (Join_Split (TrimSpace text)) as HJ.
    destruct (Split_pieces (TrimSpace text)) as [HP _].
    destruct (Strings.Split (TrimSpace text)) as [|x [|y [|z l]]];
      try (destruct (Recorder.debug_ok t); discriminate).
    intros Hr. exists text, x, y.
    inversion HP as [|? ? Hx Hy']; subst. inversion Hy' as [|? ? Hy _]; subst.
    repeat split; try assumption; [symmetry; exact HJ|].
    destruct (Recorder.debug_ok t); cbn in Hr; congruence.
  - intros (text & x & y & Hp & He & Ht & Hx & Hy & ->).
    apply andb_prop in Hp as [-> ->]. rewrite He, Ht, (Split_two x y Hx Hy).
    destruct (Recorder.debug_ok t); reflexivity.
Qed.

(** ** The scaling recorder and the two pixel players *)

Lemma Atoi_FormatInt v :
  Int64.in_range v = true -> Strconv.Atoi (Strconv.FormatInt v) = Some v.
Proof. apply ParseInt_FormatInt. Qed.

Lemma rows_scaled_tick {FL : FloatLib} (TrimSpace : string -> string)
    (g : Recorder.geometry) (t : Recorder.tick) text sx sy gx gy :
  Run.pictured t = true ->
  Recorder.estimator t = Recorder.Answer text ->
  Strings.Split (TrimSpace text) = [sx; sy] ->
  Strconv.Atoi sx = Some gx -> Strconv.Atoi sy = Some gy ->
  Recorder.physicalWidth g <> 0 -> Recorder.physicalHeight g <> 0 ->
  exists tr,
    Pixels.record_scaled TrimSpace g [t] = Some tr
    /\ Recorder.rows tr
       = [Pixels.header;
          [Strconv.FormatInt (Recorder.timestamp t);
           Strconv.FormatInt (Pixels.scale_to_logical gx (Pixels.xScale g));
           Strconv.FormatInt (Pixels.scale_to_logical gy (Pixels.yScale g))]].
Proof.
  intros Hp He Hs Hx Hy HW HH. unfold Pixels.record_scaled.
  apply Z.eqb_neq in HW, HH. rewrite HW, HH. cbn [orb].
  eexists. split; [reflexivity|].
  apply andb_prop in Hp as [Hc Hen].
  cbn [flat_map]. unfold Pixels.on_tick_scaled, Pixels.scaled_row.
  rewrite Hc, Hen, He, Hs, Hx, Hy. reflexivity.
Qed.

(** An answer of two integers, scaled and written by the scaling
    recorder, is played by the player of raw integers at exactly the
    written coordinates, provided they fit [int64]: the row's three
    fields are read back as they were written. *)
Theorem scaled_row_is_played_as_written {FL : FloatLib} (TrimSpace : string -> string)
    (g : Recorder.geometry) (t : Recorder.tick) text sx sy gx gy :
  Run.pictured t = true ->
  Recorder.estimator t = Recorder.Answer text ->
  Strings.Split (TrimSpace text) = [sx; sy] ->
  Strconv.Atoi sx = Some gx -> Strconv.Atoi sy = Some gy ->
  Recorder.physicalWidth g <> 0 -> Recorder.physicalHeight g <> 0 ->
  Int64.in_range (Recorder.timestamp t) = true ->
  Int64.in_range (Pixels.scale_to_logical gx (Pixels.xScale g)) = true ->
  Int64.in_range (Pixels.scale_to_logical gy (Pixels.yScale g)) = true ->
  exists tr,
    Pixels.record_scaled TrimSpace g [t] = Some tr
    /\ Pixels.play_raw (Recorder.rows tr)
       = Player.Finished [Player.Move (Pixels.scale_to_logical gx (Pixels.xScale g))
                                      (Pixels.scale_to_logical gy (Pixels.yScale g))].
Proof.
  intros Hp He Hs Hx Hy HW HH Rt Rx Ry.
  destruct (rows_scaled_tick TrimSpace g t text sx sy gx gy Hp He Hs Hx Hy HW HH)
    as (tr & Htr & Hrows).
  exists tr. split; [exact Htr|]. rewrite Hrows.
  unfold Pixels.play_raw, Pixels.header.
  cbn [Csv.ReadAll forallb List.length Nat.eqb andb].
  cbn [Pixels.playback_raw List.length Nat.eqb negb nth].
  rewrite (ParseInt_FormatInt _ Rt), (Atoi_FormatInt _ Rx), (Atoi_FormatInt _ Ry).
  reflexivity.
Qed.

Lemma scaled_row_is_played_as_written_witness :
  exists tr,
    Pixels.record_scaled (FL := Float64.binary64) Strings.TrimSpace_ascii Logs.doubled
      [Logs.tick_at 1000 7 7 (Recorder.Answer " 1001,601 ") 0] = Some tr
    /\ Pixels.play_raw (Recorder.rows tr) = Player.Finished [Player.Move 500 300].
Proof.
  exact (scaled_row_is_played_as_written (FL := Float64.binary64)
           Strings.TrimSpace_ascii Logs.doubled
           (Logs.tick_at 1000 7 7 (Recorder.Answer " 1001,601 ") 0)
           " 1001,601 " "1001" "601" 1001 601
           ltac:(reflexivity) ltac:(reflexivity) ltac:(reflexivity)
           ltac:(reflexivity) ltac:(reflexivity)
           ltac:(cbn; lia) ltac:(cbn; lia)
           ltac:(reflexivity) ltac:(vm_compute; reflexivity)
           ltac:(vm_compute; reflexivity)).
Defined.


Lemma ReadAll_some file records : Csv.ReadAll file = Some records -> records = file.
Proof.
  destruct file as [|first rest]; cbn [Csv.ReadAll]; [congruence|].
  destruct (forallb (fun r => Nat.eqb (List.length r) (List.length first)) rest);
    congruence.
Qed.

Section SameSize.

Variable g : Recorder.geometry.
Hypothesis same_width : Recorder.physicalWidth g = Recorder.logicalWidth g.
Hypothesis same_height : Recorder.physicalHeight g = Recorder.logicalHeight g.
Hypothesis width_exact : 0 < Recorder.logicalWidth g < 2 ^ 53.
Hypothesis height_exact : 0 < Recorder.logicalHeight g < 2 ^ 53.

Lemma xScale_same : Pixels.xScale (FL := Float64.binary64) g = 1%Q.
Proof. unfold Pixels.xScale. rewrite same_width. apply Exact.ratio_one. exact width_exact. Qed.

Lemma yScale_same : Pixels.yScale (FL := Float64.binary64) g = 1%Q.
Proof. unfold Pixels.yScale. rewrite same_height. apply Exact.ratio_one. exact height_exact. Qed.

Lemma playback_scaled_same records : forall i last,
  Forall Run.exact_row records ->
  Pixels.playback_scaled (FL := Float64.binary64) g i last records
  = Pixels.playback_raw i last records.
Proof.
  induction records as [|r rest IH]; intros i last Hex; [reflexivity|].
  inversion Hex as [|? ? Hr Hrest]; subst.
  unfold Run.exact_row, Pixels.parsed in Hr.
  cbn [Pixels.playback_scaled Pixels.playback_raw].
  destruct (negb (Nat.eqb (List.length r) 3)); [rewrite IH by exact Hrest; reflexivity|].
  destruct (Strconv.ParseInt (nth 0 r EmptyString)) as [ts|];
    [|rewrite IH by exact Hrest; reflexivity].
  destruct (Strconv.Atoi (nth 1 r EmptyString)) as [x|];
    [|rewrite IH by exact Hrest; reflexivity].
  destruct (Strconv.Atoi (nth 2 r EmptyString)) as [y|];
    [|rewrite IH by exact Hrest; reflexivity].
  destruct Hr as [Hx Hy]. rewrite IH by exact Hrest.
  rewrite xScale_same, yScale_same. unfold Pixels.scale_to_logical.
  change (@to_int Float64.binary64) with Float64.to_int.
  change (@fmul Float64.binary64) with Float64.fmul.
  change (@of_int Float64.binary64) with Float64.of_int.
  rewrite (Exact.one_of_int x Hx), (Exact.one_of_int y Hy). reflexivity.
Qed.

End SameSize.

(** On a display whose screenshots have the size of the screen in
    pointer units, the scaling player does what the player of raw
    integers does on the same file: the scale is exactly one and every
    accepted coordinate from 0 to below [2^53] comes back from
    [float64] as it went in. *)
Theorem same_size_display_plays_the_integers (g : Recorder.geometry)
    (file : list Csv.record) :
  Recorder.physicalWidth g = Recorder.logicalWidth g ->
  Recorder.physicalHeight g = Recorder.logicalHeight g ->
  0 < Recorder.logicalWidth g < 2 ^ 53 ->
  0 < Recorder.logicalHeight g < 2 ^ 53 ->
  Forall Run.exact_row file ->
  Pixels.play_scaled (FL := Float64.binary64) g file = Pixels.play_raw file.
Proof.
  intros HW HH LW LH Hex. unfold Pixels.play_scaled, Pixels.play_raw.
  destruct (Csv.ReadAll file) as [records|] eqn:HR; [|reflexivity].
  apply ReadAll_some in HR. subst records.
  assert (Z1 : (Recorder.physicalWidth g =? 0) = false) by (apply Z.eqb_neq; lia).
  assert (Z2 : (Recorder.physicalHeight g =? 0) = false) by (apply Z.eqb_neq; lia).
  rewrite Z1, Z2. cbn [orb]. f_equal.
  apply playback_scaled_same; try assumption.
  destruct file as [|hdr body]; [constructor|].
  inversion Hex; assumption.
Qed.

Lemma same_size_display_plays_the_integers_witness :
  Pixels.play_scaled (FL := Float64.binary64) Logs.full_hd
    [Logs.pixel_header; Logs.pixel_row; ["40"%string; "1919"%string; "oops"%string]]
  = Pixels.play_raw
    [Logs.pixel_header; Logs.pixel_row; ["40"%string; "1919"%string; "oops"%string]].
Proof.
  exact (same_size_display_plays_the_integers Logs.full_hd
           [Logs.pixel_header; Logs.pixel_row;
            ["40"%string; "1919"%string; "oops"%string]]
           ltac:(reflexivity) ltac:(reflexivity) ltac:(cbn; lia) ltac:(cbn; lia)
           ltac:(repeat constructor; vm_compute; intuition discriminate)).
Defined.



(** An answer of two integers that the recorder of the answer writes
    as it stands is played by the player of raw integers at exactly
    those integers, the estimator's pixels, whatever the screen is. *)
Theorem verbatim_integers_are_played {FL : FloatLib} (TrimSpace : string -> string)
    (g : Recorder.geometry) (t : Recorder.tick) text sx sy gx gy :
  Run.pictured t = true ->
  Recorder.estimator t = Recorder.Answer text ->
  Strings.Split (TrimSpace text) = [sx; sy] ->
  Strconv.Atoi sx = Some gx -> Strconv.Atoi sy = Some gy ->
  Int64.in_range (Recorder.timestamp t) = true ->
  Pixels.play_raw (Recorder.rows (Pixels.record_verbatim TrimSpace g [t]))
  = Player.Finished [Player.Move gx gy].
Proof.
  intros Hp He Hs Hx Hy Rt. apply andb_prop in Hp as [Hc Hen].
  unfold Pixels.record_verbatim. cbn [flat_map].
  unfold Pixels.on_tick_verbatim, Pixels.verbatim_row.
  destruct (Recorder.mouse t) as [mx my]. rewrite Hc, Hen, He, Hs.
  destruct (Recorder.debug_ok t); cbn [negb app Recorder.rows flat_map];
    unfold Pixels.play_raw, Pixels.header;
    cbn [Csv.ReadAll forallb List.length Nat.eqb andb];
    cbn [Pixels.playback_raw List.length Nat.eqb negb nth];
    rewrite (ParseInt_FormatInt _ Rt), Hx, Hy; reflexivity.
Qed.

Lemma verbatim_integers_are_played_witness :
  Pixels.play_raw
    (Recorder.rows
       (Pixels.record_verbatim (FL := Float64.binary64) Strings.TrimSpace_ascii
          Logs.doubled [Logs.tick_at 1000 7 7 (Recorder.Answer " 1001,601 ") 0]))
  = Player.Finished [Player.Move 1001 601].
Proof.
  exact (verbatim_integers_are_played (FL := Float64.binary64)
           Strings.TrimSpace_ascii Logs.doubled
           (Logs.tick_at 1000 7 7 (Recorder.Answer " 1001,601 ") 0)
           " 1001,601 " "1001" "601" 1001 601
           ltac:(reflexivity) ltac:(reflexivity) ltac:(reflexivity)
           ltac:(reflexivity) ltac:(reflexivity) ltac:(reflexivity)).
Defined.
